(** * cloudant.index: option translation and the sliceable, iterable Index

    A shallow embedding of [src/cloudant/index.py] (Python 2):
    the option catalog [ARG_TYPES], the converter table [TYPE_CONVERTERS],
    the translator [python_to_couch], and the class [Index] with its
    constructor, its subscript operator and its generator [__iter__].

    Python dictionaries are finite maps ([gmap string pyval]); objects that
    the code reaches through a reference (the keyword dictionary kept as
    [self.options], the [Index] instance itself) live in an explicit heap;
    operations of [Index] run in a state-and-exception monad over a world
    made of that heap, the state of the remote side and the log of the
    keyword arguments every call of the data callable received. *)

From stdpp Require Import gmap strings list fin_maps.
From Stdlib Require Import ZArith.

Local Open Scope Z_scope.

(** ** Python values *)

(** The values the module can meet.  [VStr] and [VUnicode] are the two
    [basestring] types of Python 2; [VInt] is an [int] ([Z] because Python 2
    arithmetic is exact: it promotes to [long] instead of wrapping; the
    promoted tag is not tracked); [VObject] is an instance of a class with no
    special methods, such as [object()]: it is no sequence, it has no length
    and [json.dumps] refuses it. *)
#[warnings="-register-all"]
Inductive pyval : Type :=
  | VNone
  | VBool (b : bool)
  | VInt (n : Z)
  | VStr (s : string)
  | VUnicode (s : string)
  | VList (items : list pyval)
  | VTuple (items : list pyval)
  | VSlice (start stop step : pyval)
  | VObject (id : nat).

Abbreviation dict := (gmap string pyval).

(** Types and abstract base classes named in the module. *)
Module Py.
Inductive type : Set :=
  | basestring | str | unicode | Sequence | list | tuple
  | int | bool | NoneType | slice | object.
End Py.

Global Instance Py_type_eq_dec : EqDecision Py.type.
Proof. solve_decision. Defined.

(** [type(v)] *)
Definition type_of (v : pyval) : Py.type :=
  match v with
  | VNone => Py.NoneType
  | VBool _ => Py.bool
  | VInt _ => Py.int
  | VStr _ => Py.str
  | VUnicode _ => Py.unicode
  | VList _ => Py.list
  | VTuple _ => Py.tuple
  | VSlice _ _ _ => Py.slice
  | VObject _ => Py.object
  end.

(** [issubclass(c, d)]: [bool] derives from [int], [str] and [unicode] from
    [basestring]; [collections.Sequence] has [tuple], [basestring] and (through
    [MutableSequence]) [list] registered. *)
Definition issubclass (c d : Py.type) : bool :=
  match d with
  | Py.object => true
  | Py.basestring =>
      match c with Py.basestring | Py.str | Py.unicode => true | _ => false end
  | Py.Sequence =>
      match c with
      | Py.Sequence | Py.basestring | Py.str | Py.unicode | Py.list | Py.tuple => true
      | _ => false
      end
  | Py.int => match c with Py.int | Py.bool => true | _ => false end
  | _ => bool_decide (c = d)
  end.

(** [isinstance(v, typerefs)], with a tuple of classes as a list. *)
Definition isinstance (v : pyval) (typerefs : list Py.type) : bool :=
  existsb (issubclass (type_of v)) typerefs.

(** [v is None] *)
Definition is_None (v : pyval) : bool :=
  match v with VNone => true | _ => false end.

(** [v == s] for a string literal [s]: a [str] and a [unicode] with the same
    (ASCII) text are equal, a value of another type never equals a string. *)
Definition eq_str (v : pyval) (s : string) : bool :=
  match v with
  | VStr x | VUnicode x => bool_decide (x = s)
  | _ => false
  end.

(** [v in (s1, s2, ...)] for a tuple of string literals. *)
Definition in_strs (v : pyval) (choices : list string) : bool :=
  existsb (eq_str v) choices.

(** The truth value of [v], as [if v] tests it. *)
Definition truth (v : pyval) : bool :=
  match v with
  | VNone => false
  | VBool b => b
  | VInt n => negb (n =? 0)
  | VStr s | VUnicode s => negb (bool_decide (s = ""))
  | VList l | VTuple l => negb (bool_decide (l = []))
  | _ => true
  end.

(** ** Exceptions *)

(** Built-in exceptions; [Failure] stands for whatever the data callable
    raises on its own (transport or backend failures). *)
Inductive builtin_exn : Set :=
  | TypeError
  | ValueError
  | KeyError (k : string)
  | AttributeError
  | UnboundLocalError
  | StopIteration
  | Failure (code : nat).

(** The messages of the module's [CloudantArgumentError]s, one constructor
    per format string, carrying the formatted arguments. *)
Inductive message : Type :=
  | Invalid_Argument (k : string)
  | Argument_not_instance_of_expected_type (k : string) (expected : list Py.type)
  | Invalid_value_for_stale_option (v : pyval)
  | Error_converting_arg (k : string) (ex : builtin_exn)
  | Failed_to_interpret_the_argument (key : pyval)
  | Cannot_use_skip_for_iteration
  | Cannot_use_limit_for_iteration.

Inductive exn : Type :=
  | CloudantArgumentError (msg : message)
  | Builtin (e : builtin_exn).

(** ** The option catalog *)

Definition ARG_TYPES : gmap string (list Py.type) :=
  list_to_map [
    ("descending", [Py.bool]);
    ("endkey", [Py.basestring; Py.Sequence]);
    ("endkey_docid", [Py.basestring]);
    ("group", [Py.bool]);
    ("group_level", [Py.basestring]);
    ("include_docs", [Py.bool]);
    ("inclusive_end", [Py.bool]);
    ("key", [Py.int; Py.basestring; Py.Sequence]);
    ("limit", [Py.int; Py.NoneType]);
    ("reduce", [Py.bool]);
    ("skip", [Py.int; Py.NoneType]);
    ("stale", [Py.basestring]);
    ("startkey", [Py.basestring; Py.Sequence]);
    ("startkey_docid", [Py.basestring])
  ].

(** [list(x)]: the items of a sequence as a new list. *)
Definition chars (mk : string → pyval) (s : string) : list pyval :=
  (λ c, mk (String c EmptyString)) <$> String.list_ascii_of_string s.

Definition list_of (x : pyval) : builtin_exn + pyval :=
  match x with
  | VList l | VTuple l => inr (VList l)
  | VStr s => inr (VList (chars VStr s))
  | VUnicode s => inr (VList (chars VUnicode s))
  | _ => inl TypeError
  end.

Section Translator.

(** [json.dumps] belongs to Python's standard library, not to this
    repository: it is a parameter of the development.  It returns the JSON
    text, or the exception it raised (an object that is not serializable, a
    byte string that is not UTF-8). *)
Variable json_dumps : pyval → builtin_exn + string.

Definition dumps (x : pyval) : builtin_exn + pyval :=
  match json_dumps x with
  | inl ex => inl ex
  | inr text => inr (VStr text)
  end.

(** [TYPE_CONVERTERS.get(t)] *)
Definition TYPE_CONVERTERS (t : Py.type) : option (pyval → builtin_exn + pyval) :=
  match t with
  | Py.basestring => Some (λ x, dumps x)
  | Py.str => Some (λ x, dumps x)
  | Py.unicode => Some (λ x, dumps x)
  | Py.Sequence =>
      Some (λ x, match list_of x with inl ex => inl ex | inr l => dumps l end)
  | Py.list => Some (λ x, dumps x)
  | Py.tuple =>
      Some (λ x, match list_of x with inl ex => inl ex | inr l => dumps l end)
  | Py.int => Some (λ x, inr x)
  | Py.bool => Some (λ x, inr (VStr (if truth x then "true" else "false")))
  | Py.NoneType => Some (λ x, inr x)
  | _ => None
  end.

(** The body of the loop of [python_to_couch] for one item [(k, v)], up to
    the assignment: the value stored as [result[k]], or the exception. *)
Definition translate_value (k : string) (v : pyval) : exn + pyval :=
  match ARG_TYPES !! k with
  | None => inl (CloudantArgumentError (Invalid_Argument k))
  | Some expected =>
      if negb (isinstance v expected) then
        inl (CloudantArgumentError
               (Argument_not_instance_of_expected_type k expected))
      else
        let arg_converter := TYPE_CONVERTERS (type_of v) in
        if bool_decide (k = "stale") && negb (in_strs v ["ok"; "update_after"]) then
          inl (CloudantArgumentError (Invalid_value_for_stale_option v))
        else
          let converted :=
            if is_None v then inr VNone
            else match arg_converter with
                 | Some convert => convert v
                 | None => inl TypeError
                 end in
          match converted with
          | inr w => inr w
          | inl ex => inl (CloudantArgumentError (Error_converting_arg k ex))
          end
  end.

(** The loop over [options.iteritems()], in the order [items]. *)
Fixpoint translate_items (items : list (string * pyval)) (result : dict)
  : exn + dict :=
  match items with
  | [] => inr result
  | (k, v) :: rest =>
      match translate_value k v with
      | inl e => inl e
      | inr w => translate_items rest (<[k := w]> result)
      end
  end.

Definition python_to_couch (options : dict) : exn + dict :=
  translate_items (map_to_list options) ∅.

End Translator.

(** ** The Index class *)

Abbreviation loc := nat.

(** Arithmetic on [int]s, of which [bool] is a subclass. *)
Definition as_int (v : pyval) : option Z :=
  match v with
  | VInt n => Some n
  | VBool b => Some (if b then 1 else 0)
  | _ => None
  end.

(** [a - b] for operands the code has checked to be [int]s. *)
Definition sub (a b : pyval) : builtin_exn + pyval :=
  match as_int a, as_int b with
  | Some x, Some y => inr (VInt (x - y))
  | _, _ => inl TypeError
  end.

(** [skip + v] where [skip] is the [int] counter of the iteration. *)
Definition add (skip : Z) (v : pyval) : builtin_exn + Z :=
  match as_int v with
  | Some y => inr (skip + y)
  | None => inl TypeError
  end.

(** [len(v)] *)
Definition len (v : pyval) : builtin_exn + nat :=
  match v with
  | VList l | VTuple l => inr (length l)
  | VStr s | VUnicode s => inr (String.length s)
  | _ => inl TypeError
  end.

(** The items [for x in v] goes through. *)
Definition items_of (v : pyval) : builtin_exn + list pyval :=
  match v with
  | VList l | VTuple l => inr l
  | VStr s => inr (chars VStr s)
  | VUnicode s => inr (chars VUnicode s)
  | _ => inl TypeError
  end.

(** [isinstance(value, typerefs) or value is None] *)
Definition type_or_none (typerefs : list Py.type) (value : pyval) : bool :=
  isinstance value typerefs || is_None value.

(** [key.start] and [key.stop] of a slice object. *)
Definition start (key : pyval) : pyval :=
  match key with VSlice a _ _ => a | _ => VNone end.
Definition stop (key : pyval) : pyval :=
  match key with VSlice _ b _ => b | _ => VNone end.

(** The keyword dictionary a callee receives from [f(k1=v1, ..., **starred)]:
    a new dictionary; a keyword given twice is a [TypeError] raised before
    the callee runs. *)
Definition keywords (named : list (string * pyval)) (starred : dict) : exn + dict :=
  if existsb (λ kv, bool_decide (is_Some (starred !! kv.1))) named
  then inl (Builtin TypeError)
  else inr (list_to_map named ∪ starred).

Section Index.

(** The state of the remote side, which the data callable reads and may
    change. *)
Variable Remote : Type.

(** The data callable ([CloudantDatabase.all_docs], [View.__call__]): it
    takes keyword arguments and returns the decoded response, a dictionary,
    or raises. *)
Definition callable : Type := Remote → dict → (exn + dict) * Remote.

(** The attributes of an [Index] instance; [options] is a reference to the
    dictionary object. *)
Record Index : Type := {
  options : loc;
  _ref : callable;
  _page_size : pyval;
  _valid_args : list string
}.

Inductive obj : Type :=
  | ODict (d : dict)
  | OIndex (i : Index).

(** [calls] logs, oldest first, the keyword arguments of every invocation
    of a data callable. *)
Record world : Type := {
  heap : list obj;
  remote : Remote;
  calls : list dict
}.

Definition M (A : Type) : Type := world → (exn + A) * world.

#[global] Instance M_ret : MRet M := λ A x w, (inr x, w).
#[global] Instance M_bind : MBind M := λ A B f m w,
  match m w with
  | (inl e, w') => (inl e, w')
  | (inr x, w') => f x w'
  end.

Definition raise {A} (e : exn) : M A := λ w, (inl e, w).

Definition lift {A} (r : builtin_exn + A) : M A :=
  match r with
  | inl e => raise (Builtin e)
  | inr x => mret x
  end.

Definition new (o : obj) : M loc := λ w,
  (inr (length (heap w)),
   {| heap := heap w ++ [o]; remote := remote w; calls := calls w |}).

Definition get_dict (l : loc) : M dict := λ w,
  match heap w !! l with
  | Some (ODict d) => (inr d, w)
  | _ => (inl (Builtin TypeError), w)
  end.

Definition get_index (l : loc) : M Index := λ w,
  match heap w !! l with
  | Some (OIndex i) => (inr i, w)
  | _ => (inl (Builtin AttributeError), w)
  end.

(** [d.pop(k, fallback)] on the dictionary object at [l]. *)
Definition pop (l : loc) (k : string) (fallback : pyval) : M pyval := λ w,
  match heap w !! l with
  | Some (ODict d) =>
      (inr (default fallback (d !! k)),
       {| heap := <[l := ODict (delete k d)]> (heap w);
          remote := remote w; calls := calls w |})
  | _ => (inl (Builtin AttributeError), w)
  end.

(** Running the callable [f] on the keyword dictionary [kwargs]. *)
Definition invoke (f : callable) (kwargs : dict) : M dict := λ w,
  let '(r, remote') := f (remote w) kwargs in
  (r, {| heap := heap w; remote := remote'; calls := calls w ++ [kwargs] |}).

(** [Index(method_ref, **options)]: [options] is the new dictionary the
    call builds from its keywords; [self.options] refers to that same
    object, so the [pop] is seen through it. *)
Definition __init__ (method_ref : callable) (kwargs : dict) : M loc :=
  options ← new (ODict kwargs);
  page_size ← pop options "page_size" (VInt 100);
  new (OIndex {| options := options;
                 _ref := method_ref;
                 _page_size := page_size;
                 _valid_args := (map_to_list ARG_TYPES).*1 |}).

(** [self._ref(k1=v1, ..., **self.options)] *)
Definition call_ref (self : loc) (named : list (string * pyval)) : M dict :=
  me ← get_index self;
  starred ← get_dict (options me);
  match keywords named starred with
  | inl e => raise e
  | inr kwargs => invoke (_ref me) kwargs
  end.

(** [if c: data = call], with [data] possibly still unbound. *)
Definition assign_if (c : bool) (call : M dict) (data : option dict)
  : M (option dict) :=
  if c then d ← call; mret (Some d) else mret data.

(** [return data['rows']] *)
Definition return_rows (data : option dict) : M pyval :=
  match data with
  | None => raise (Builtin UnboundLocalError)
  | Some d =>
      match d !! "rows" with
      | Some rows => mret rows
      | None => raise (Builtin (KeyError "rows"))
      end
  end.

Definition __getitem__ (self : loc) (key : pyval) : M pyval :=
  let failed :=
    raise (CloudantArgumentError (Failed_to_interpret_the_argument key)) in
  if isinstance key [Py.basestring] then
    data ← call_ref self [("key", key)];
    return_rows (Some data)
  else if isinstance key [Py.list] then
    data ← call_ref self [("key", key)];
    return_rows (Some data)
  else if isinstance key [Py.slice] then
    let str_or_none_start := type_or_none [Py.basestring; Py.list] (start key) in
    let str_or_none_stop := type_or_none [Py.basestring; Py.list] (stop key) in
    if str_or_none_start && str_or_none_stop then
      data ← assign_if (negb (is_None (start key)) && negb (is_None (stop key)))
               (call_ref self [("startkey", start key); ("endkey", stop key)]) None;
      data ← assign_if (negb (is_None (start key)) && is_None (stop key))
               (call_ref self [("startkey", start key)]) data;
      data ← assign_if (is_None (start key) && negb (is_None (stop key)))
               (call_ref self [("endkey", stop key)]) data;
      data ← assign_if (is_None (start key) && is_None (stop key))
               (call_ref self []) data;
      return_rows data
    else
      let int_or_none_start := type_or_none [Py.int] (start key) in
      let int_or_none_stop := type_or_none [Py.int] (stop key) in
      if int_or_none_start && int_or_none_stop then
        data ← assign_if (negb (is_None (start key)) && negb (is_None (stop key)))
                 (limit ← lift (sub (stop key) (start key));
                  call_ref self [("skip", start key); ("limit", limit)]) None;
        data ← assign_if (negb (is_None (start key)) && is_None (stop key))
                 (call_ref self [("skip", start key)]) data;
        data ← assign_if (is_None (start key) && negb (is_None (stop key)))
                 (call_ref self [("limit", stop key)]) data;
        return_rows data
      else failed
  else failed.

(** *** Iteration *)

(** The frame of a generator object made by [__iter__]: not started yet,
    suspended at the [yield] with the items of [result] still to come and
    the (already advanced) [skip], or finished. *)
Inductive frame : Type :=
  | Created (self : loc)
  | Suspended (self : loc) (skip : Z) (pending : list pyval)
  | Finished.

(** Calling a generator function runs none of its body. *)
Definition __iter__ (self : loc) : frame := Created self.

(** One turn of [while True], from its top to the first [yield], or to
    [break], after which the generator returns.  [len(result) > 0] holds
    exactly when [result] has a first item, and [len] and [for] refuse the
    same values. *)
Definition turn (self : loc) (skip : Z) : M (pyval * frame) :=
  me ← get_index self;
  response ← call_ref self [("limit", _page_size me); ("skip", VInt skip)];
  let result := default (VList []) (response !! "rows") in
  skip ← lift (add skip (_page_size me));
  pending ← lift (items_of result);
  match pending with
  | x :: rest => mret (x, Suspended self skip rest)
  | [] => raise (Builtin StopIteration)
  end.

(** Running the body from where the frame stands to the next [yield]. *)
Definition resume (g : frame) : M (pyval * frame) :=
  match g with
  | Created self =>
      me ← get_index self;
      opts ← get_dict (options me);
      if bool_decide (is_Some (opts !! "skip")) then
        raise (CloudantArgumentError Cannot_use_skip_for_iteration)
      else if bool_decide (is_Some (opts !! "limit")) then
        raise (CloudantArgumentError Cannot_use_limit_for_iteration)
      else turn self 0
  | Suspended self skip (x :: rest) => mret (x, Suspended self skip rest)
  | Suspended self skip [] => turn self skip
  | Finished => raise (Builtin StopIteration)
  end.

(** [next(g)]: the item yielded or the exception raised, and the frame
    afterwards; a generator that raised or returned is finished. *)
Definition next (g : frame) (w : world) : (exn + pyval) * frame * world :=
  match resume g w with
  | (inr (x, g'), w') => (inr x, g', w')
  | (inl e, w') => (inl e, Finished, w')
  end.

(** [list(g)], giving up after [fuel] calls of [next]: the backend decides
    whether an iteration ever ends. *)
Fixpoint exhaust (fuel : nat) (g : frame) (w : world)
  : option (exn + list pyval) * frame * world :=
  match fuel with
  | O => (None, g, w)
  | S fuel' =>
      match next g w with
      | (inr x, g', w') =>
          let '(r, g'', w'') := exhaust fuel' g' w' in
          (match r with
           | Some (inr xs) => Some (inr (x :: xs))
           | other => other
           end, g'', w'')
      | (inl (Builtin StopIteration), g', w') => (Some (inr []), g', w')
      | (inl e, g', w') => (Some (inl e), g', w')
      end
  end.

(** [n] successive calls of [next] on one generator. *)
Fixpoint pulls (n : nat) (g : frame) (w : world)
  : list (exn + pyval) * frame * world :=
  match n with
  | O => ([], g, w)
  | S n' =>
      let '(r, g', w') := next g w in
      let '(rs, g'', w'') := pulls n' g' w' in
      (r :: rs, g'', w'')
  end.

(** Two generators advanced in the order [schedule] gives ([true]: the
    first one); the results each of them saw, in order. *)
Fixpoint interleaved (schedule : list bool) (g1 g2 : frame) (w : world)
  : list (exn + pyval) * list (exn + pyval) * world :=
  match schedule with
  | [] => ([], [], w)
  | true :: schedule' =>
      let '(r, g1', w') := next g1 w in
      let '(rs1, rs2, w'') := interleaved schedule' g1' g2 w' in
      (r :: rs1, rs2, w'')
  | false :: schedule' =>
      let '(r, g2', w') := next g2 w in
      let '(rs1, rs2, w'') := interleaved schedule' g1 g2' w' in
      (rs1, r :: rs2, w'')
  end.

End Index.

Arguments options {Remote}.
Arguments _ref {Remote}.
Arguments _page_size {Remote}.
Arguments _valid_args {Remote}.
Arguments ODict {Remote}.
Arguments OIndex {Remote}.
Arguments heap {Remote}.
Arguments remote {Remote}.
Arguments calls {Remote}.
Arguments raise {Remote A}.
Arguments lift {Remote A}.
Arguments new {Remote}.
Arguments get_dict {Remote}.
Arguments get_index {Remote}.
Arguments pop {Remote}.
Arguments invoke {Remote}.
Arguments __init__ {Remote}.
Arguments call_ref {Remote}.
Arguments assign_if {Remote}.
Arguments return_rows {Remote}.
Arguments __getitem__ {Remote}.
Arguments turn {Remote}.
Arguments resume {Remote}.
Arguments next {Remote}.
Arguments exhaust {Remote}.
Arguments pulls {Remote}.
Arguments interleaved {Remote}.

(** ** Vocabulary of the statements *)

(** The computation [r] returned a value instead of raising. *)
Definition succeeds {E A : Type} (r : E + A) : Prop := ∃ x, r = inr x.



(** The values the converters produce: JSON text, and [int]s and [None]
    passed through. *)
Definition wire_form (v : pyval) : bool :=
  match v with
  | VStr _ | VInt _ | VNone => true
  | _ => false
  end.

(** An instance of the parameter [json_dumps] for examples: the encoder on
    strings that need no escape and on lists of them. *)
Definition quote : string := String (Ascii.ascii_of_nat 34) EmptyString.

Definition plain (s : string) : bool :=
  forallb (λ c, let n := Ascii.nat_of_ascii c in
                (32 <=? n)%nat && (n <=? 126)%nat
                && negb (n =? 34)%nat && negb (n =? 92)%nat)
          (String.list_ascii_of_string s).

Definition sample_text (s : string) : builtin_exn + string :=
  if plain s then inr (quote +:+ s +:+ quote) else inl ValueError.

Fixpoint sample_join (items : list pyval) : builtin_exn + string :=
  match items with
  | [] => inr ""
  | VStr s :: rest | VUnicode s :: rest =>
      match sample_text s, sample_join rest with
      | inr a, inr b =>
          inr (match rest with [] => a | _ => a +:+ ", " +:+ b end)
      | inl e, _ | _, inl e => inl e
      end
  | _ => inl TypeError
  end.

Definition sample_dumps (v : pyval) : builtin_exn + string :=
  match v with
  | VStr s | VUnicode s => sample_text s
  | VList l | VTuple l =>
      match sample_join l with
      | inr body => inr ("[" +:+ body +:+ "]")
      | inl e => inl e
      end
  | _ => inl TypeError
  end.


(** ** Vocabulary of the statements about [Index] *)

(** In the world [w], [self] is an [Index] instance with the attributes [me]
    and its [options] dictionary holds [opts]. *)
Definition index_at {Remote : Type} (w : world Remote) (self : loc)
    (me : Index Remote) (opts : dict) : Prop :=
  heap w !! self = Some (OIndex me) ∧ heap w !! options me = Some (ODict opts).

(** The keyword dictionaries logged between [w] and a later world [w']. *)
Definition new_calls {Remote : Type} (w w' : world Remote) : list dict :=
  drop (length (calls w)) (calls w').

(** The world after the callable of [me] has run once, on [kwargs]. *)
Definition after_call {Remote : Type} (me : Index Remote) (kwargs : dict)
    (w : world Remote) : world Remote :=
  {| heap := heap w;
     remote := (_ref me (remote w) kwargs).2;
     calls := calls w ++ [kwargs] |}.

(** [name=v] when [v] is not [None], nothing otherwise. *)
Definition present (name : string) (v : pyval) : list (string * pyval) :=
  if is_None v then [] else [(name, v)].

(** The keywords [__getitem__] puts in front of [**self.options] for [key],
    or the exception it raises before any call: the decision tree of the
    method, read off its branches. *)
Definition selected (key : pyval) : exn + list (string * pyval) :=
  let failed :=
    inl (CloudantArgumentError (Failed_to_interpret_the_argument key)) in
  if isinstance key [Py.basestring] || isinstance key [Py.list] then
    inr [("key", key)]
  else if isinstance key [Py.slice] then
    if type_or_none [Py.basestring; Py.list] (start key)
       && type_or_none [Py.basestring; Py.list] (stop key) then
      inr (present "startkey" (start key) ++ present "endkey" (stop key))
    else if type_or_none [Py.int] (start key)
            && type_or_none [Py.int] (stop key) then
      if is_None (start key) then inr [("limit", stop key)]
      else if is_None (stop key) then inr [("skip", start key)]
      else match sub (stop key) (start key) with
           | inr limit => inr [("skip", start key); ("limit", limit)]
           | inl e => inl (Builtin e)
           end
    else failed
  else failed.

(** The names [__getitem__] and [__iter__] pass by keyword. *)
Definition own_names : list string :=
  ["key"; "startkey"; "endkey"; "skip"; "limit"].

(** The request of the iteration for the page at [skip]. *)
Definition page_request (page_size : pyval) (skip : Z) (opts : dict) : dict :=
  list_to_map [("limit", page_size); ("skip", VInt skip)] ∪ opts.

(** The Index a generator frame iterates over. *)
Definition owner (g : frame) : option loc :=
  match g with
  | Created self | Suspended self _ _ => Some self
  | Finished => None
  end.

(** The kinds of range bound the specification tells apart.  Following
    Python, where [bool] is a subclass of [int], a boolean counts as an
    integer. *)
Inductive kind : Set := Absent | Text | Ordered | Integer | Unknown.

Definition kind_of (v : pyval) : kind :=
  match v with
  | VNone => Absent
  | VStr _ | VUnicode _ => Text
  | VList _ | VTuple _ => Ordered
  | VInt _ | VBool _ => Integer
  | _ => Unknown
  end.

(** The classification rule in the specification's words: a key range has
    bounds that are each a string, an ordered sequence or absent; a
    positional window has bounds that are each an integer or absent;
    everything else is mixed or unclassifiable. *)
Definition spec_key_range (a b : pyval) : bool :=
  match kind_of a, kind_of b with
  | (Absent | Text | Ordered), (Absent | Text | Ordered) => true
  | _, _ => false
  end.

Definition spec_positional (a b : pyval) : bool :=
  match kind_of a, kind_of b with
  | (Absent | Integer), (Absent | Integer) => true
  | _, _ => false
  end.

Definition spec_unclassifiable (a b : pyval) : bool :=
  negb (spec_key_range a b) && negb (spec_positional a b).

(** The responses of the callable depend on the request only, not on the
    state of the remote side. *)
Definition answers_by_request {Remote : Type} (f : callable Remote) : Prop :=
  ∀ b b' kwargs, (f b kwargs).1 = (f b' kwargs).1.

(** From the remote state [b], the callable [f] serves the non-empty [pages]
    to the successive requests of an iteration with page size [size] that
    stands at [skip], then a page without rows, and leaves the state
    [b_end]. *)
Fixpoint serves {Remote : Type} (f : callable Remote) (size : Z) (opts : dict)
    (b : Remote) (skip : Z) (pages : list (list pyval)) (b_end : Remote) : Prop :=
  match pages with
  | [] =>
      ∃ response,
        f b (page_request (VInt size) skip opts) = (inr response, b_end)
        ∧ default (VList []) (response !! "rows") = VList []
  | page :: rest =>
      page ≠ []
      ∧ ∃ response b',
          f b (page_request (VInt size) skip opts) = (inr response, b')
          ∧ response !! "rows" = Some (VList page)
          ∧ serves f size opts b' (skip + size) rest b_end
  end.

(** The requests of that iteration, one per page and one for the empty
    page. *)
Fixpoint requests (size : Z) (opts : dict) (skip : Z) (n : nat) : list dict :=
  match n with
  | O => []
  | S n' => page_request (VInt size) skip opts :: requests size opts (skip + size) n'
  end.

(** Between [w] and [w'] the callable of [me] ran at most once, and if it
    ran, it received the fixed options [opts] under keywords of the
    operation's own. *)
Definition at_most_one_call {Remote : Type} (me : Index Remote) (opts : dict)
    (w w' : world Remote) : Prop :=
  w' = w
  ∨ ∃ named kwargs,
      (∀ k, k ∈ named.*1 → k ∈ own_names)
      ∧ keywords named opts = inr kwargs
      ∧ w' = after_call me kwargs w.

(** The generator [g] iterates over [self], or is finished. *)
Definition over (self : loc) (g : frame) : Prop :=
  owner g = Some self ∨ g = Finished.

(** Instances for the examples: a remote side without state, and a view of
    the rows [0], ..., [total - 1] that answers by [skip] and [limit]. *)
Definition sample_world : world unit :=
  {| heap := []; remote := tt; calls := [] |}.

Definition sample_rows (skip count : nat) : list pyval :=
  (λ n, VInt (Z.of_nat n)) <$> seq skip count.

Definition sample_view (total : nat) : callable unit := λ _ kwargs,
  let skip := match kwargs !! "skip" with
              | Some (VInt s) => Z.to_nat s
              | _ => O
              end in
  let limit := match kwargs !! "limit" with
               | Some (VInt l) => Z.to_nat l
               | _ => total
               end in
  (inr {["rows" := VList (sample_rows skip (Nat.min limit (total - skip)))]}, tt).

(** The items [xs] put in front of the outcome of the rest of an
    iteration. *)
Definition prepend (xs : list pyval) (r : option (exn + list pyval))
  : option (exn + list pyval) :=
  match r with
  | Some (inr ys) => Some (inr (xs ++ ys))
  | other => other
  end.


(** ** Vocabulary of the further properties *)

(** What the converter of [v] hands to [json.dumps]: a string or a list
    itself, the list of its items for a tuple; nothing for the other
    values. *)
Definition dumped (v : pyval) : option pyval :=
  match v with
  | VStr _ | VUnicode _ | VList _ => Some v
  | VTuple l => Some (VList l)
  | _ => None
  end.

(** The callable answers every request with a page that has a first row. *)
Definition always_rows {Remote : Type} (f : callable Remote) : Prop :=
  ∀ b kwargs, ∃ response b' x rest,
    f b kwargs = (inr response, b')
    ∧ response !! "rows" = Some (VList (x :: rest)).

(** Instances for the examples: a callable that fails, one whose responses
    have no [rows], and one that never runs out of rows. *)
Definition sample_failing : callable unit :=
  λ _ _, (inl (Builtin (Failure 503)), tt).

Definition sample_without_rows : callable unit :=
  λ _ _, (inr {["total_rows" := VInt 0]}, tt).

Definition sample_endless : callable unit :=
  λ _ _, (inr {["rows" := VList [VInt 7]]}, tt).

(** ** The session helpers of [cloudant/__init__.py] *)

Section Session.

(** The state of the process and of the network the client acts on. *)
Variable World : Type.

(** An instance of a client class, with the two methods the helpers call.
    The classes [Cloudant] and [CouchDB] live in [account.py]: their
    constructors are parameters. *)
Record Client : Type := {
  connect : World → (exn + unit) * World;
  disconnect : World → (exn + unit) * World
}.

Variable Cloudant : pyval → pyval → dict → World → (exn + Client) * World.
Variable CouchDB : pyval → pyval → dict → World → (exn + Client) * World.

(** A generator function with one [yield] outside any [try]: the code
    before the [yield], which gives the value yielded, and the code after
    it. *)
Record generator : Type := {
  before : World → (exn + Client) * World;
  after : Client → World → (exn + unit) * World
}.

(** The body shared by [cloudant] and [couchdb], for the class built by
    [construct]:
    [c = construct(user, passwd, **kwargs); c.connect(); yield c;
     c.disconnect()]. *)
Definition session
    (construct : pyval → pyval → dict → World → (exn + Client) * World)
    (user passwd : pyval) (kwargs : dict) : generator :=
  {| before := λ w,
       match construct user passwd kwargs w with
       | (inl e, w') => (inl e, w')
       | (inr c, w') =>
           match connect c w' with
           | (inl e, w'') => (inl e, w'')
           | (inr _, w'') => (inr c, w'')
           end
       end;
     after := λ c w, disconnect c w |}.

Definition cloudant (user passwd : pyval) (kwargs : dict) : generator :=
  session Cloudant user passwd kwargs.

Definition couchdb (user passwd : pyval) (kwargs : dict) : generator :=
  session CouchDB user passwd kwargs.

(** [with g as c: body], for [g] decorated by [contextlib.contextmanager]:
    entering runs the generator to its [yield]; leaving after a body that
    returned resumes it to its end; leaving after a body that raised throws
    the exception at the [yield], where nothing catches it, so the code
    after the [yield] does not run and the exception goes on. *)
Definition with_ {A : Type} (g : generator)
    (body : Client → World → (exn + A) * World) (w : World)
  : (exn + A) * World :=
  match before g w with
  | (inl e, w1) => (inl e, w1)
  | (inr c, w1) =>
      match body c w1 with
      | (inl e, w2) => (inl e, w2)
      | (inr r, w2) =>
          match after g c w2 with
          | (inl e, w3) => (inl e, w3)
          | (inr _, w3) => (inr r, w3)
          end
      end
  end.

End Session.

Arguments connect {World}.
Arguments disconnect {World}.
Arguments before {World}.
Arguments after {World}.
Arguments session {World}.
Arguments cloudant {World}.
Arguments couchdb {World}.
Arguments with_ {World A}.

(** Instances for the examples: the world is the log of what happened, and a
    client whose methods write to it. *)
Definition sample_client : Client (list string) :=
  {| connect := λ log, (inr tt, log ++ ["connect"]);
     disconnect := λ log, (inr tt, log ++ ["disconnect"]) |}.

Definition sample_class (user passwd : pyval) (kwargs : dict)
    (log : list string) : (exn + Client (list string)) * list string :=
  (inr sample_client, log ++ ["construct"]).

(** * Theorems *)

(** ** The translator *)

Section TranslatorFacts.

Variable json_dumps : pyval → builtin_exn + string.

Lemma translate_items_succeeds items result :
  (∀ k v, (k, v) ∈ items → succeeds (translate_value json_dumps k v)) →
  succeeds (translate_items json_dumps items result).
Proof.
  revert result. induction items as [|[k v] rest IH]; intros result Hall.
  - by exists result.
  - simpl. destruct (Hall k v) as [w ->]; [left|].
    apply IH. intros k' v' Hin. apply Hall. by right.
Qed.

Lemma translate_items_raises items result e :
  translate_items json_dumps items result = inl e →
  ∃ k v, (k, v) ∈ items ∧ translate_value json_dumps k v = inl e.
Proof.
  revert result. induction items as [|[k v] rest IH]; intros result; simpl.
  - discriminate.
  - destruct (translate_value json_dumps k v) as [e'|w] eqn:Hv.
    + intros [= ->]. exists k, v. split; [left|done].
    + intros Hrest. destruct (IH _ Hrest) as (k' & v' & Hin & He).
      exists k', v'. split; [by right|done].
Qed.

Lemma translate_items_lookup items result result' :
  NoDup items.*1 →
  translate_items json_dumps items result = inr result' →
  (∀ k v, (k, v) ∈ items →
     ∃ w, translate_value json_dumps k v = inr w ∧ result' !! k = Some w)
  ∧ (∀ k, k ∉ items.*1 → result' !! k = result !! k).
Proof.
  revert result. induction items as [|[k v] rest IH]; intros result Hnd; simpl.
  - intros [= ->]. split; [|done]. intros k v Hin. by apply elem_of_nil in Hin.
  - apply NoDup_cons in Hnd as [Hk Hnd]. simpl in Hk.
    destruct (translate_value json_dumps k v) as [e'|w] eqn:Hv; [done|].
    intros Hrest. destruct (IH _ Hnd Hrest) as [Hin Hout]. split.
    + intros k' v' [[= -> ->]|Hin']%elem_of_cons.
      * exists w. split; [done|]. rewrite (Hout _ Hk). apply lookup_insert_eq.
      * by apply Hin.
    + intros k' [Hne Hk']%not_elem_of_cons.
      rewrite (Hout _ Hk'). by apply lookup_insert_ne.
Qed.

Lemma python_to_couch_succeeds options :
  map_Forall (λ k v, succeeds (translate_value json_dumps k v)) options →
  succeeds (python_to_couch json_dumps options).
Proof.
  intros Hall. apply translate_items_succeeds.
  intros k v Hin%elem_of_map_to_list. by apply Hall.
Qed.

Lemma python_to_couch_raises options e :
  python_to_couch json_dumps options = inl e →
  ∃ k v, options !! k = Some v ∧ translate_value json_dumps k v = inl e.
Proof.
  intros (k & v & Hin%elem_of_map_to_list & He)%translate_items_raises.
  by exists k, v.
Qed.

(** A successful translation has, under each name of the input, the
    translation of the value of that name, and nothing else. *)
Lemma python_to_couch_lookup options result :
  python_to_couch json_dumps options = inr result →
  (∀ k v, options !! k = Some v →
     ∃ w, translate_value json_dumps k v = inr w ∧ result !! k = Some w)
  ∧ (∀ k, options !! k = None → result !! k = None).
Proof.
  intros Hok.
  destruct (translate_items_lookup _ _ _ (NoDup_fst_map_to_list options) Hok)
    as [Hin Hout].
  split.
  - intros k v Hk. apply Hin. by apply elem_of_map_to_list.
  - intros k Hk. rewrite Hout; [done|].
    intros ([k' v] & -> & Hin')%list_elem_of_fmap.
    apply elem_of_map_to_list in Hin'. simpl in Hk. congruence.
Qed.

Lemma python_to_couch_dom options result :
  python_to_couch json_dumps options = inr result → dom result = dom options.
Proof.
  intros [Hin Hout]%python_to_couch_lookup. apply set_eq. intros k.
  rewrite !elem_of_dom. split.
  - intros [w Hw]. destruct (options !! k) eqn:Hk; [done|].
    rewrite (Hout _ Hk) in Hw. done.
  - intros [v Hv]. destruct (Hin _ _ Hv) as (w & _ & ->). done.
Qed.

(** Whatever the translator stores is in wire form. *)
Lemma translate_value_wire_form k v w :
  translate_value json_dumps k v = inr w → wire_form w = true.
Proof.
  unfold translate_value.
  destruct (ARG_TYPES !! k) as [expected|]; [|done].
  destruct (negb (isinstance v expected)); [done|].
  destruct (bool_decide (k = "stale") && negb (in_strs v ["ok"; "update_after"]));
    [done|].
  destruct v; simpl; unfold dumps; simpl;
    repeat match goal with
           | |- context [json_dumps ?x] => destruct (json_dumps x)
           end; intros [= <-]; done.
Qed.

(** A successful translation holds values in wire form only. *)
Lemma python_to_couch_wire_form options result :
  python_to_couch json_dumps options = inr result →
  map_Forall (λ _ w, wire_form w = true) result.
Proof.
  intros [Hin Hout]%python_to_couch_lookup k w Hw.
  destruct (options !! k) as [v|] eqn:Hk.
  - destruct (Hin _ _ Hk) as (w' & Hv & Hw').
    rewrite Hw in Hw'. injection Hw' as <-.
    by apply (translate_value_wire_form k v).
  - rewrite (Hout _ Hk) in Hw. done.
Qed.

End TranslatorFacts.




Section TranslatorClaims.

Variable json_dumps : pyval → builtin_exn + string.

Lemma python_to_couch_succeeds_inv options k v :
  succeeds (python_to_couch json_dumps options) →
  options !! k = Some v →
  succeeds (translate_value json_dumps k v).
Proof.
  intros [result [Hin _]%python_to_couch_lookup] Hk.
  destruct (Hin _ _ Hk) as (w & Hw & _). by exists w.
Qed.


End TranslatorClaims.



Example stale_ok :
  python_to_couch sample_dumps {["stale" := VStr "ok"]}
  = inr {["stale" := VStr (quote +:+ "ok" +:+ quote)]}.
Proof. reflexivity. Qed.

Example stale_update_after :
  python_to_couch sample_dumps {["stale" := VStr "update_after"]}
  = inr {["stale" := VStr (quote +:+ "update_after" +:+ quote)]}.
Proof. reflexivity. Qed.

Example stale_nope :
  python_to_couch sample_dumps {["stale" := VStr "nope"]}
  = inl (CloudantArgumentError (Invalid_value_for_stale_option (VStr "nope"))).
Proof. reflexivity. Qed.

Example include_docs_true :
  python_to_couch sample_dumps {["include_docs" := VBool true]}
  = inr {["include_docs" := VStr "true"]}.
Proof. reflexivity. Qed.

(** [bool] is a subclass of [int]: a boolean [limit] passes the type check
    and is converted as a boolean. *)
Example limit_true :
  python_to_couch sample_dumps {["limit" := VBool true]}
  = inr {["limit" := VStr "true"]}.
Proof. reflexivity. Qed.

Example unknown_name :
  python_to_couch sample_dumps {["bogus" := VInt 1]}
  = inl (CloudantArgumentError (Invalid_Argument "bogus")).
Proof. reflexivity. Qed.




(** ** The Index *)

Lemma length_list_ascii_of_string (s : string) :
  length (String.list_ascii_of_string s) = String.length s.
Proof. induction s as [|c s IH]; simpl; congruence. Qed.

(** [len(v) > 0] and a first item of [for x in v] go together, and [len]
    and [for] refuse the same values: this is what lets [turn] test the items
    where the method tests the length. *)
Lemma len_items_of (v : pyval) :
  match len v, items_of v with
  | inr n, inr items => n = length items
  | inl e, inl e' => e = e'
  | _, _ => False
  end.
Proof.
  destruct v; simpl; try done; unfold chars;
    by rewrite length_fmap, length_list_ascii_of_string.
Qed.

Section IndexFacts.

Variable Remote : Type.
Implicit Types (w : world Remote) (me : Index Remote) (opts : dict).

Lemma call_ref_run w self me opts named :
  index_at w self me opts →
  call_ref self named w
  = match keywords named opts with
    | inl e => (inl e, w)
    | inr kwargs => ((_ref me (remote w) kwargs).1, after_call me kwargs w)
    end.
Proof.
  intros [Hself Hopts]. unfold call_ref, mbind, M_bind, get_index, get_dict.
  rewrite Hself, Hopts. destruct (keywords named opts) as [e|kwargs]; [done|].
  unfold invoke, after_call. by destruct (_ref me (remote w) kwargs).
Qed.

(** [__getitem__] is its decision tree followed by one call and the
    subscript of the response. *)
Lemma getitem_selected w self key :
  __getitem__ self key w
  = match selected key with
    | inl e => (inl e, w)
    | inr named => (data ← call_ref self named; return_rows (Some data)) w
    end.
Proof.
  unfold __getitem__, selected.
  destruct (isinstance key [Py.basestring]); [done|].
  destruct (isinstance key [Py.list]); [done|]. cbn [orb].
  destruct (isinstance key [Py.slice]); [|done].
  destruct (type_or_none [Py.basestring; Py.list] (start key)
            && type_or_none [Py.basestring; Py.list] (stop key)) eqn:Hstr.
  - unfold present, assign_if, mbind, M_bind, mret, M_ret.
    destruct (is_None (start key)), (is_None (stop key)); cbn [negb andb app];
      by destruct (call_ref self _ w) as [[e|d] w'].
  - destruct (type_or_none [Py.int] (start key)
              && type_or_none [Py.int] (stop key)) eqn:Hint; [|done].
    unfold assign_if, mbind, M_bind, mret, M_ret, lift, raise.
    destruct (is_None (start key)) eqn:Ha, (is_None (stop key)) eqn:Hb;
      cbn [negb andb].
    + exfalso. unfold type_or_none in Hstr. rewrite Ha, Hb, !orb_true_r in Hstr.
      done.
    + by destruct (call_ref self _ w) as [[e|d] w'].
    + by destruct (call_ref self _ w) as [[e|d] w'].
    + destruct (sub (stop key) (start key)) as [e|limit]; [done|].
      unfold mret, M_ret. by destruct (call_ref self _ w) as [[e|d] w'].
Qed.

Lemma getitem_run w self me opts key :
  index_at w self me opts →
  __getitem__ self key w
  = match selected key with
    | inl e => (inl e, w)
    | inr named =>
        match keywords named opts with
        | inl e => (inl e, w)
        | inr kwargs =>
            (match (_ref me (remote w) kwargs).1 with
             | inl e => inl e
             | inr data =>
                 match data !! "rows" with
                 | Some rows => inr rows
                 | None => inl (Builtin (KeyError "rows"))
                 end
             end, after_call me kwargs w)
        end
    end.
Proof.
  intros Hat. rewrite getitem_selected.
  destruct (selected key) as [e|named]; [done|].
  unfold mbind, M_bind. rewrite (call_ref_run _ _ _ _ _ Hat).
  destruct (keywords named opts) as [e|kwargs]; [done|].
  destruct (_ref me (remote w) kwargs).1 as [e|data]; [done|].
  unfold return_rows. by destruct (data !! "rows").
Qed.

Lemma turn_run w self me opts skip :
  index_at w self me opts →
  turn self skip w
  = match keywords [("limit", _page_size me); ("skip", VInt skip)] opts with
    | inl e => (inl e, w)
    | inr kwargs =>
        (match (_ref me (remote w) kwargs).1 with
         | inl e => inl e
         | inr response =>
             match add skip (_page_size me) with
             | inl e => inl (Builtin e)
             | inr skip' =>
                 match items_of (default (VList []) (response !! "rows")) with
                 | inl e => inl (Builtin e)
                 | inr [] => inl (Builtin StopIteration)
                 | inr (x :: rest) => inr (x, Suspended self skip' rest)
                 end
             end
         end, after_call me kwargs w)
    end.
Proof.
  intros Hat. unfold turn, mbind, M_bind at 1. unfold get_index at 1.
  rewrite (proj1 Hat). unfold mbind, M_bind at 1.
  rewrite (call_ref_run _ _ _ _ _ Hat).
  destruct (keywords _ opts) as [e|kwargs]; [done|].
  destruct (_ref me (remote w) kwargs).1 as [e|response]; [done|].
  unfold mbind, M_bind, lift, raise, mret, M_ret.
  destruct (add skip (_page_size me)) as [e|skip']; [done|].
  destruct (items_of _) as [e|[|x rest]]; done.
Qed.

Lemma selected_own_names key named k :
  selected key = inr named → k ∈ named.*1 → k ∈ own_names.
Proof.
  unfold selected, present, own_names.
  repeat match goal with
         | |- context [if ?c then _ else _] => destruct c
         | |- context [match sub ?a ?b with _ => _ end] => destruct (sub a b)
         end; intros [= <-]; simpl; rewrite ?elem_of_cons, ?elem_of_nil;
    intuition auto.
Qed.

Lemma keywords_lookup named opts kwargs :
  keywords named opts = inr kwargs →
  kwargs = list_to_map named ∪ opts
  ∧ (∀ k v, opts !! k = Some v → kwargs !! k = Some v)
  ∧ (∀ k, k ∉ named.*1 → kwargs !! k = opts !! k).
Proof.
  unfold keywords.
  destruct (existsb _ named) eqn:Hdup; [done|]. intros [= <-].
  assert (Hfresh : ∀ k, is_Some (opts !! k) → (list_to_map named : dict) !! k = None).
  { intros k Hk. apply not_elem_of_list_to_map_1. intros Hin.
    apply list_elem_of_fmap in Hin as ([k' v'] & -> & Hin).
    assert (existsb (λ kv, bool_decide (is_Some (opts !! kv.1))) named = true);
      [|congruence].
    apply existsb_exists. exists (k', v'). split; [by apply list_elem_of_In|].
    by apply bool_decide_eq_true_2. }
  split; [done|]. split.
  - intros k v Hk. rewrite lookup_union_r; [done|]. apply Hfresh. by exists v.
  - intros k Hk. rewrite lookup_union_r; [done|].
    by apply not_elem_of_list_to_map_1.
Qed.

Lemma getitem_effect w self me opts key :
  index_at w self me opts →
  at_most_one_call me opts w (__getitem__ self key w).2.
Proof.
  intros Hat. rewrite (getitem_run _ _ _ _ _ Hat).
  destruct (selected key) as [e|named] eqn:Hsel; [by left|].
  destruct (keywords named opts) as [e|kwargs] eqn:Hkw; [by left|].
  right. exists named, kwargs. split; [|done].
  intros k. by apply (selected_own_names key).
Qed.

Lemma turn_effect w self me opts skip :
  index_at w self me opts →
  at_most_one_call me opts w (turn self skip w).2.
Proof.
  intros Hat. rewrite (turn_run _ _ _ _ _ Hat).
  destruct (keywords _ opts) as [e|kwargs] eqn:Hkw; [by left|].
  right. eexists _, kwargs. split; [|done].
  unfold own_names. simpl. intros k. rewrite ?elem_of_cons, ?elem_of_nil.
  intuition auto.
Qed.

Lemma next_effect w self me opts g :
  index_at w self me opts →
  owner g = Some self ∨ g = Finished →
  at_most_one_call me opts w (next g w).2.
Proof.
  intros Hat Hg. unfold next.
  assert (Hturn : ∀ skip,
    at_most_one_call me opts w
      (match turn self skip w with
       | (inr (x, g'), w') => (inr x, g', w')
       | (inl e, w') => (inl e, Finished, w')
       end).2).
  { intros skip. pose proof (turn_effect _ _ _ _ skip Hat) as H.
    by destruct (turn self skip w) as [[e|[x g']] w']. }
  destruct g as [self'|self' skip [|x rest]|]; simpl.
  - destruct Hg as [[= ->]|]; [|done].
    unfold mbind, M_bind, get_index, get_dict.
    rewrite (proj1 Hat), (proj2 Hat).
    destruct (bool_decide (is_Some (opts !! "skip"))); [by left|].
    destruct (bool_decide (is_Some (opts !! "limit"))); [by left|].
    apply Hturn.
  - destruct Hg as [[= ->]|]; [|done]. apply Hturn.
  - by left.
  - by left.
Qed.

Lemma new_calls_same w : new_calls w w = [].
Proof. unfold new_calls. by rewrite drop_all. Qed.

Lemma new_calls_after_call me kwargs w :
  new_calls w (after_call me kwargs w) = [kwargs].
Proof. unfold new_calls, after_call. simpl. by rewrite drop_app_length. Qed.

(** What a logged call received: the fixed options as they are stored, and
    nothing else outside the operation's own keywords. *)
Lemma at_most_one_call_received me opts w w' kwargs :
  at_most_one_call me opts w w' →
  kwargs ∈ new_calls w w' →
  (∀ k v, opts !! k = Some v → kwargs !! k = Some v)
  ∧ (∀ k, k ∉ own_names → kwargs !! k = opts !! k).
Proof.
  intros [->|(named & kwargs' & Hnames & Hkw & ->)].
  - rewrite new_calls_same. by intros ?%elem_of_nil.
  - rewrite new_calls_after_call. intros ->%list_elem_of_singleton.
    apply keywords_lookup in Hkw as (_ & Hsub & Hout). split; [done|].
    intros k Hk. apply Hout. intros Hin. by apply Hk, Hnames.
Qed.

End IndexFacts.

(** ** Construction *)

Lemma init_run {Remote : Type} (method_ref : callable Remote) (kwargs : dict)
    (w : world Remote) :
  __init__ method_ref kwargs w
  = (inr (S (length (heap w))),
     {| heap := heap w
                ++ [ODict (delete "page_size" kwargs);
                    OIndex {| options := length (heap w);
                              _ref := method_ref;
                              _page_size := default (VInt 100) (kwargs !! "page_size");
                              _valid_args := (map_to_list ARG_TYPES).*1 |}];
        remote := remote w;
        calls := calls w |}).
Proof.
  unfold __init__, mbind, M_bind, new, pop. simpl.
  rewrite lookup_app_r by done. rewrite Nat.sub_diag. simpl.
  rewrite length_insert, length_app. simpl.
  replace (length (heap w) + 1)%nat with (S (length (heap w))) by lia.
  assert (Hins : <[length (heap w) := ODict (delete "page_size" kwargs)]>
                   (heap w ++ [ODict (Remote := Remote) kwargs])
                 = heap w ++ [ODict (delete "page_size" kwargs)]).
  { rewrite insert_app_r_alt by done. by rewrite Nat.sub_diag. }
  rewrite Hins. by rewrite <-app_assoc.
Qed.

Lemma init_index_at {Remote : Type} (method_ref : callable Remote)
    (kwargs : dict) (w : world Remote) :
  index_at (__init__ method_ref kwargs w).2 (S (length (heap w)))
    {| options := length (heap w);
       _ref := method_ref;
       _page_size := default (VInt 100) (kwargs !! "page_size");
       _valid_args := (map_to_list ARG_TYPES).*1 |}
    (delete "page_size" kwargs).
Proof.
  rewrite init_run. split; simpl.
  - rewrite lookup_app_r by lia.
    by replace (S (length (heap w)) - length (heap w))%nat with 1%nat by lia.
  - rewrite lookup_app_r by lia. by rewrite Nat.sub_diag.
Qed.

(** ** Iteration refuses [skip] and [limit] *)

(** C4.  When the fixed options of an Index contain [skip] or [limit], the
    first [next] of an iteration over it raises the module's argument error
    and leaves the world as it was: the callable has not run.  (The body of
    a generator runs at the first [next], not when [__iter__] is called.) *)
Theorem iteration_refuses_skip_and_limit {Remote : Type} (w : world Remote)
    (self : loc) (me : Index Remote) (opts : dict) :
  index_at w self me opts →
  is_Some (opts !! "skip") ∨ is_Some (opts !! "limit") →
  ∃ msg,
    (msg = Cannot_use_skip_for_iteration ∨ msg = Cannot_use_limit_for_iteration)
    ∧ next (__iter__ self) w = (inl (CloudantArgumentError msg), Finished, w)
    ∧ new_calls w (next (__iter__ self) w).2 = []
    ∧ ∀ fuel, exhaust (S fuel) (__iter__ self) w
              = (Some (inl (CloudantArgumentError msg)), Finished, w).
Proof.
  intros [Hself Hopts] Hconflict.
  assert (Hnext : ∃ msg,
    (msg = Cannot_use_skip_for_iteration ∨ msg = Cannot_use_limit_for_iteration)
    ∧ next (__iter__ self) w = (inl (CloudantArgumentError msg), Finished, w)).
  { unfold next, __iter__, resume, mbind, M_bind, get_index, get_dict.
    rewrite Hself, Hopts.
    destruct (decide (is_Some (opts !! "skip"))) as [Hskip|Hskip].
    - rewrite (bool_decide_eq_true_2 _ Hskip). eexists. split; [by left|done].
    - rewrite (bool_decide_eq_false_2 _ Hskip).
      destruct Hconflict as [?|Hlimit]; [done|].
      rewrite (bool_decide_eq_true_2 _ Hlimit). eexists. split; [by right|done]. }
  destruct Hnext as (msg & Hmsg & Hnext). exists msg.
  split; [done|]. split; [done|]. split.
  - rewrite Hnext. apply new_calls_same.
  - intros fuel. simpl. by rewrite Hnext.
Qed.

Lemma iteration_refuses_skip_and_limit_witness :
  let w := (__init__ (sample_view 3) {["skip" := VInt 5]} sample_world).2 in
  ∃ msg,
    (msg = Cannot_use_skip_for_iteration ∨ msg = Cannot_use_limit_for_iteration)
    ∧ next (__iter__ 1%nat) w = (inl (CloudantArgumentError msg), Finished, w)
    ∧ new_calls w (next (__iter__ 1%nat) w).2 = []
    ∧ ∀ fuel, exhaust (S fuel) (__iter__ 1%nat) w
              = (Some (inl (CloudantArgumentError msg)), Finished, w).
Proof.
  intros w.
  apply (iteration_refuses_skip_and_limit w 1%nat
           {| options := 0%nat; _ref := sample_view 3; _page_size := VInt 100;
              _valid_args := (map_to_list ARG_TYPES).*1 |}
           {["skip" := VInt 5]}).
  - split; reflexivity.
  - left. by eexists.
Defined.

Example iteration_with_skip_5 :
  let w := (__init__ (sample_view 3) {["skip" := VInt 5]} sample_world).2 in
  next (__iter__ 1%nat) w
  = (inl (CloudantArgumentError Cannot_use_skip_for_iteration), Finished, w).
Proof. reflexivity. Qed.

Example iteration_with_limit_5 :
  let w := (__init__ (sample_view 3) {["limit" := VInt 5]} sample_world).2 in
  next (__iter__ 1%nat) w
  = (inl (CloudantArgumentError Cannot_use_limit_for_iteration), Finished, w).
Proof. reflexivity. Qed.

(** ** Subscripts *)

Lemma keywords_key (key : pyval) (opts : dict) :
  opts !! "key" = None →
  keywords [("key", key)] opts = inr (<["key" := key]> opts).
Proof.
  intros Hkey. unfold keywords. simpl. rewrite Hkey.
  rewrite bool_decide_eq_false_2 by (by intros [? ?]). simpl.
  by rewrite <-insert_union_l, (left_id_L ∅ (∪)).
Qed.



(** C6.  A slice whose bounds are of mixed or unclassifiable kinds, in the
    specification's classification, makes the subscript raise the argument
    error that names the slice, and leaves the world as it was: the callable
    is not invoked. *)
Theorem unclassifiable_range_is_refused {Remote : Type} (w : world Remote)
    (self : loc) (a b step : pyval) :
  spec_unclassifiable a b = true →
  __getitem__ self (VSlice a b step) w
  = (inl (CloudantArgumentError
            (Failed_to_interpret_the_argument (VSlice a b step))), w)
  ∧ new_calls w (__getitem__ self (VSlice a b step) w).2 = [].
Proof.
  intros Hmixed.
  assert (Hraise : __getitem__ self (VSlice a b step) w
                   = (inl (CloudantArgumentError
                             (Failed_to_interpret_the_argument (VSlice a b step))),
                      w)).
  { rewrite getitem_selected.
    replace (selected (VSlice a b step))
      with (inl (CloudantArgumentError
                   (Failed_to_interpret_the_argument (VSlice a b step)))
            : exn + list (string * pyval)); [done|].
    destruct a, b; try discriminate Hmixed; reflexivity. }
  split; [done|]. rewrite Hraise. apply new_calls_same.
Qed.

Lemma unclassifiable_range_is_refused_witness :
  let w := (__init__ (sample_view 3) ∅ sample_world).2 in
  __getitem__ 1%nat (VSlice (VStr "2013") (VInt 200) VNone) w
  = (inl (CloudantArgumentError
            (Failed_to_interpret_the_argument
               (VSlice (VStr "2013") (VInt 200) VNone))), w)
  ∧ new_calls w (__getitem__ 1%nat (VSlice (VStr "2013") (VInt 200) VNone) w).2
    = [].
Proof.
  intros w.
  apply (unclassifiable_range_is_refused w 1%nat (VStr "2013") (VInt 200) VNone).
  reflexivity.
Defined.

(** A tuple bound is an ordered sequence for the specification, and no
    [list] for the method: it is refused as well. *)
Example tuple_bound_refused :
  let w := (__init__ (sample_view 3) ∅ sample_world).2 in
  __getitem__ 1%nat (VSlice (VTuple [VStr "2013"]) VNone VNone) w
  = (inl (CloudantArgumentError
            (Failed_to_interpret_the_argument
               (VSlice (VTuple [VStr "2013"]) VNone VNone))), w).
Proof. reflexivity. Qed.

Example key_range_2013_2014 :
  let w := (__init__ (sample_view 3) ∅ sample_world).2 in
  new_calls w (__getitem__ 1%nat (VSlice (VStr "2013") (VStr "2014") VNone) w).2
  = [ {["startkey" := VStr "2013"; "endkey" := VStr "2014"]} ].
Proof. reflexivity. Qed.

(** C2, as the specification words it, fails: an integer key and a tuple key
    are refused, and the callable is not invoked. *)
Lemma integer_and_tuple_keys_refused :
  let w := (__init__ (sample_view 3) ∅ sample_world).2 in
  isinstance (VInt 3) [Py.int; Py.basestring; Py.Sequence] = true
  ∧ __getitem__ 1%nat (VInt 3) w
    = (inl (CloudantArgumentError (Failed_to_interpret_the_argument (VInt 3))), w)
  ∧ isinstance (VTuple [VStr "2013"; VStr "10"])
      [Py.int; Py.basestring; Py.Sequence] = true
  ∧ __getitem__ 1%nat (VTuple [VStr "2013"; VStr "10"]) w
    = (inl (CloudantArgumentError
              (Failed_to_interpret_the_argument (VTuple [VStr "2013"; VStr "10"]))),
       w).
Proof. repeat split; reflexivity. Qed.

(** C2, amended.  For a key that is a string or a list, on an Index whose
    fixed options have no [key], the subscript invokes the callable exactly
    once, on the fixed options with [key] added, and returns the [rows] of the
    response as they are; an integer or a tuple key raises the argument error
    without any call. *)
Theorem key_lookup {Remote : Type} (w : world Remote) (self : loc)
    (me : Index Remote) (opts : dict) (key : pyval) :
  index_at w self me opts →
  (isinstance key [Py.basestring; Py.list] = true →
   opts !! "key" = None →
   new_calls w (__getitem__ self key w).2 = [<["key" := key]> opts]
   ∧ ∀ data b' rows,
       _ref me (remote w) (<["key" := key]> opts) = (inr data, b') →
       data !! "rows" = Some rows →
       __getitem__ self key w
       = (inr rows,
          {| heap := heap w; remote := b';
             calls := calls w ++ [<["key" := key]> opts] |}))
  ∧ (isinstance key [Py.int; Py.tuple] = true →
     __getitem__ self key w
     = (inl (CloudantArgumentError (Failed_to_interpret_the_argument key)), w)).
Proof.
  intros Hat. split.
  - intros Hkey Hfree. rewrite (getitem_run _ _ _ _ _ _ Hat).
    assert (Hsel : selected key = inr [("key", key)]).
    { unfold selected. destruct key; try discriminate Hkey; reflexivity. }
    rewrite Hsel, (keywords_key _ _ Hfree). split.
    + apply new_calls_after_call.
    + intros data b' rows Hcall Hrows. unfold after_call.
      rewrite Hcall. simpl. by rewrite Hrows.
  - intros Hkey. rewrite getitem_selected.
    destruct key; try discriminate Hkey; reflexivity.
Qed.

Lemma key_lookup_witness :
  let w := (__init__ (sample_view 3) {["include_docs" := VBool true]}
              sample_world).2 in
  let opts : dict := {["include_docs" := VBool true]} in
  let key := VList [VStr "2013"; VStr "10"] in
  (isinstance key [Py.basestring; Py.list] = true →
   opts !! "key" = None →
   new_calls w (__getitem__ 1%nat key w).2 = [<["key" := key]> opts]
   ∧ ∀ data b' rows,
       sample_view 3 (remote w) (<["key" := key]> opts) = (inr data, b') →
       data !! "rows" = Some rows →
       __getitem__ 1%nat key w
       = (inr rows,
          {| heap := heap w; remote := b';
             calls := calls w ++ [<["key" := key]> opts] |}))
  ∧ (isinstance key [Py.int; Py.tuple] = true →
     __getitem__ 1%nat key w
     = (inl (CloudantArgumentError (Failed_to_interpret_the_argument key)), w)).
Proof.
  intros w opts key.
  apply (key_lookup w 1%nat
           {| options := 0%nat; _ref := sample_view 3; _page_size := VInt 100;
              _valid_args := (map_to_list ARG_TYPES).*1 |} opts key).
  split; reflexivity.
Defined.

Example key_lookup_string :
  let w := (__init__ (sample_view 3) {["include_docs" := VBool true]}
              sample_world).2 in
  __getitem__ 1%nat (VStr "k") w
  = (inr (VList [VInt 0; VInt 1; VInt 2]),
     {| heap := heap w; remote := tt;
        calls := [ {["key" := VStr "k"; "include_docs" := VBool true]} ] |}).
Proof. reflexivity. Qed.



Example range_100_200 :
  let w := (__init__ (sample_view 3) ∅ sample_world).2 in
  new_calls w (__getitem__ 1%nat (VSlice (VInt 100) (VInt 200) VNone) w).2
  = [ {["skip" := VInt 100; "limit" := VInt 100]} ].
Proof. reflexivity. Qed.

Example range_to_200 :
  let w := (__init__ (sample_view 3) ∅ sample_world).2 in
  new_calls w (__getitem__ 1%nat (VSlice VNone (VInt 200) VNone) w).2
  = [ {["limit" := VInt 200]} ].
Proof. reflexivity. Qed.

Example range_200_100 :
  let w := (__init__ (sample_view 3) ∅ sample_world).2 in
  new_calls w (__getitem__ 1%nat (VSlice (VInt 200) (VInt 100) VNone) w).2
  = [ {["skip" := VInt 200; "limit" := VInt (-100)]} ].
Proof. reflexivity. Qed.

(** With [skip] among the fixed options the stop-only window does carry a
    [skip], and with [limit] among them the call itself is an error. *)
Example range_to_200_with_fixed_skip :
  let w := (__init__ (sample_view 3) {["skip" := VInt 5]} sample_world).2 in
  new_calls w (__getitem__ 1%nat (VSlice VNone (VInt 200) VNone) w).2
  = [ {["limit" := VInt 200; "skip" := VInt 5]} ].
Proof. reflexivity. Qed.

Example range_to_200_with_fixed_limit :
  let w := (__init__ (sample_view 3) {["limit" := VInt 5]} sample_world).2 in
  __getitem__ 1%nat (VSlice VNone (VInt 200) VNone) w
  = (inl (Builtin TypeError), w).
Proof. reflexivity. Qed.


(** ** What the callable receives *)

(** C1, as the specification words it, fails: the subscript below invokes the
    callable with the native boolean and with a name that is not in the
    catalog, keywords the translator rejects. *)
Lemma callable_receives_options_as_given :
  let w := (__init__ (sample_view 3)
              {["include_docs" := VBool true; "bogus" := VInt 1]}
              sample_world).2 in
  let kwargs : dict :=
    {["key" := VStr "k"; "include_docs" := VBool true; "bogus" := VInt 1]} in
  new_calls w (__getitem__ 1%nat (VStr "k") w).2 = [kwargs]
  ∧ new_calls w (next (__iter__ 1%nat) w).2
    = [ {["limit" := VInt 100; "skip" := VInt 0;
          "include_docs" := VBool true; "bogus" := VInt 1]} ]
  ∧ ¬ map_Forall (λ _ v, wire_form v = true) kwargs
  ∧ ¬ succeeds (python_to_couch sample_dumps kwargs).
Proof.
  intros w kwargs. split; [reflexivity|]. split; [reflexivity|]. split.
  - intros Hwire. by specialize (Hwire "include_docs" (VBool true) eq_refl).
  - intros [result Hresult]. vm_compute in Hresult. discriminate.
Qed.

(** C1, amended.  On every access path (subscript by key or by slice, and
    each step of an iteration) the Index invokes the callable at most once,
    and the keywords of that call hold the fixed options exactly as they are
    stored, next to the operation's own keywords: the Index neither checks
    nor translates them, which is left to the callable. *)
Theorem options_reach_the_callable_as_stored {Remote : Type}
    (w : world Remote) (self : loc) (me : Index Remote) (opts : dict) :
  index_at w self me opts →
  (∀ key kwargs,
     kwargs ∈ new_calls w (__getitem__ self key w).2 →
     (∀ k v, opts !! k = Some v → kwargs !! k = Some v)
     ∧ (∀ k, k ∉ own_names → kwargs !! k = opts !! k))
  ∧ (∀ g kwargs,
       over self g →
       kwargs ∈ new_calls w (next g w).2 →
       (∀ k v, opts !! k = Some v → kwargs !! k = Some v)
       ∧ (∀ k, k ∉ own_names → kwargs !! k = opts !! k))
  ∧ (∀ key, (length (new_calls w (__getitem__ self key w).2) ≤ 1)%nat)
  ∧ (∀ g, over self g → (length (new_calls w (next g w).2) ≤ 1)%nat).
Proof.
  intros Hat.
  assert (Hlen : ∀ w', at_most_one_call me opts w w' →
                       (length (new_calls w w') ≤ 1)%nat).
  { intros w' [->|(named & kwargs & _ & _ & ->)].
    - by rewrite new_calls_same; simpl; lia.
    - by rewrite new_calls_after_call. }
  split; [|split; [|split]].
  - intros key kwargs.
    apply (at_most_one_call_received _ me), (getitem_effect _ _ _ _ _ _ Hat).
  - intros g kwargs Hg.
    apply (at_most_one_call_received _ me), (next_effect _ _ _ _ _ _ Hat Hg).
  - intros key. apply Hlen, (getitem_effect _ _ _ _ _ _ Hat).
  - intros g Hg. apply Hlen, (next_effect _ _ _ _ _ _ Hat Hg).
Qed.

Lemma options_reach_the_callable_as_stored_witness :
  let w := (__init__ (sample_view 3) {["include_docs" := VBool true]}
              sample_world).2 in
  let me := {| options := 0%nat; _ref := sample_view 3; _page_size := VInt 100;
               _valid_args := (map_to_list ARG_TYPES).*1 |} in
  let opts : dict := {["include_docs" := VBool true]} in
  index_at w 1%nat me opts
  ∧ (∀ key kwargs,
       kwargs ∈ new_calls w (__getitem__ 1%nat key w).2 →
       (∀ k v, opts !! k = Some v → kwargs !! k = Some v)
       ∧ (∀ k, k ∉ own_names → kwargs !! k = opts !! k))
  ∧ (∀ g kwargs,
       over 1%nat g →
       kwargs ∈ new_calls w (next g w).2 →
       (∀ k v, opts !! k = Some v → kwargs !! k = Some v)
       ∧ (∀ k, k ∉ own_names → kwargs !! k = opts !! k))
  ∧ (∀ key, (length (new_calls w (__getitem__ 1%nat key w).2) ≤ 1)%nat)
  ∧ (∀ g, over 1%nat g → (length (new_calls w (next g w).2) ≤ 1)%nat).
Proof.
  intros w me opts.
  assert (Hat : index_at w 1%nat me opts) by (split; reflexivity).
  split; [exact Hat|].
  apply (options_reach_the_callable_as_stored w 1%nat me opts Hat).
Defined.

(** ** The page size *)

(** Closes a goal about the calls logged by a step that made none. *)
Ltac no_new_call := simpl; rewrite new_calls_same; by intros ?%elem_of_nil.

Lemma turn_calls {Remote : Type} (w : world Remote) (self : loc)
    (me : Index Remote) (opts : dict) (skip : Z) (kwargs : dict) :
  index_at w self me opts →
  kwargs ∈ new_calls w (turn self skip w).2 →
  keywords [("limit", _page_size me); ("skip", VInt skip)] opts = inr kwargs.
Proof.
  intros Hat. rewrite (turn_run _ _ _ _ _ _ Hat).
  destruct (keywords _ opts) as [e|kwargs'].
  - no_new_call.
  - simpl. rewrite new_calls_after_call. by intros ->%list_elem_of_singleton.
Qed.

Lemma next_calls {Remote : Type} (w : world Remote) (self : loc)
    (me : Index Remote) (opts : dict) (g : frame) (kwargs : dict) :
  index_at w self me opts →
  over self g →
  kwargs ∈ new_calls w (next g w).2 →
  ∃ skip,
    keywords [("limit", _page_size me); ("skip", VInt skip)] opts = inr kwargs.
Proof.
  intros Hat Hg. unfold next.
  assert (Hturn : ∀ skip,
    kwargs ∈ new_calls w
      (match turn self skip w with
       | (inr (x, g'), w') => (inr x, g', w')
       | (inl e, w') => (inl e, Finished, w')
       end).2 →
    ∃ skip', keywords [("limit", _page_size me); ("skip", VInt skip')] opts
             = inr kwargs).
  { intros skip Hin. exists skip. apply (turn_calls w self); [done|].
    by destruct (turn self skip w) as [[e|[x g']] w']. }
  destruct g as [self'|self' skip [|x rest]|]; simpl.
  - destruct Hg as [[= ->]|]; [|done].
    unfold mbind, M_bind, get_index, get_dict.
    rewrite (proj1 Hat), (proj2 Hat).
    destruct (bool_decide (is_Some (opts !! "skip")));
      [no_new_call|].
    destruct (bool_decide (is_Some (opts !! "limit")));
      [no_new_call|].
    apply Hturn.
  - destruct Hg as [[= ->]|]; [|done]. apply Hturn.
  - no_new_call.
  - no_new_call.
Qed.

(** C10.  The constructor takes [page_size] out of the keyword dictionary it
    keeps as the fixed options, and keeps its value, or 100 when it is not
    given, as the page size.  From then on, as long as the heap is the one
    the constructor left (which the operations of the Index never change),
    no call made by a subscript or by a step of an iteration carries
    [page_size], and the calls of an iteration carry the page size as
    [limit]. *)
Theorem page_size_is_kept_out_of_the_options {Remote : Type}
    (method_ref : callable Remote) (kwargs : dict) (w0 : world Remote) :
  ∃ self me opts w,
    __init__ method_ref kwargs w0 = (inr self, w)
    ∧ index_at w self me opts
    ∧ opts = delete "page_size" kwargs
    ∧ opts !! "page_size" = None
    ∧ _page_size me = default (VInt 100) (kwargs !! "page_size")
    ∧ (kwargs !! "page_size" = None → _page_size me = VInt 100)
    ∧ ∀ w', heap w' = heap w →
        (∀ key request,
           request ∈ new_calls w' (__getitem__ self key w').2 →
           request !! "page_size" = None)
        ∧ (∀ g request,
             over self g →
             request ∈ new_calls w' (next g w').2 →
             request !! "page_size" = None
             ∧ request !! "limit" = Some (_page_size me)).
Proof.
  pose proof (init_index_at method_ref kwargs w0) as Hat.
  rewrite init_run in Hat. eexists _, _, _, _.
  split; [apply init_run|]. split; [exact Hat|]. split; [done|].
  split; [apply lookup_delete_eq|]. split; [done|].
  split; [by intros ->|].
  intros w' Hheap.
  assert (Hat' : index_at w' (S (length (heap w0)))
                   {| options := length (heap w0); _ref := method_ref;
                      _page_size := default (VInt 100) (kwargs !! "page_size");
                      _valid_args := (map_to_list ARG_TYPES).*1 |}
                   (delete "page_size" kwargs)).
  { destruct Hat as [Hself Hopts]. split; by rewrite Hheap. }
  assert (Hown : "page_size" ∉ own_names).
  { unfold own_names. rewrite !elem_of_cons, elem_of_nil.
    intros [?|[?|[?|[?|[?|[]]]]]]; discriminate. }
  split.
  - intros key request Hin.
    destruct (at_most_one_call_received _ _ _ _ _ _
                (getitem_effect _ _ _ _ _ key Hat') Hin) as [_ Hout].
    rewrite (Hout _ Hown). apply lookup_delete_eq.
  - intros g request Hg Hin. split.
    + destruct (at_most_one_call_received _ _ _ _ _ _
                  (next_effect _ _ _ _ _ g Hat' Hg) Hin) as [_ Hout].
      rewrite (Hout _ Hown). apply lookup_delete_eq.
    + destruct (next_calls _ _ _ _ _ _ Hat' Hg Hin) as [skip Hkw].
      apply keywords_lookup in Hkw as (-> & _ & _).
      apply lookup_union_Some_l. reflexivity.
Qed.

Lemma page_size_is_kept_out_of_the_options_witness :
  ∃ self me opts w,
    __init__ (sample_view 7) {["page_size" := VInt 5; "include_docs" := VBool true]}
      sample_world = (inr self, w)
    ∧ index_at w self me opts
    ∧ opts = {["include_docs" := VBool true]}
    ∧ _page_size me = VInt 5
    ∧ (heap w = heap w →
       ∀ request, request ∈ new_calls w (next (__iter__ self) w).2 →
                  request !! "page_size" = None
                  ∧ request !! "limit" = Some (VInt 5)).
Proof.
  destruct (page_size_is_kept_out_of_the_options (sample_view 7)
              {["page_size" := VInt 5; "include_docs" := VBool true]}
              sample_world)
    as (self & me & opts & w & Hinit & Hat & Hopts & _ & Hsize & _ & Hcalls).
  exists self, me, opts, w.
  split; [done|]. split; [done|].
  split; [rewrite Hopts; reflexivity|]. split; [done|].
  intros Hheap request Hin.
  destruct (Hcalls w Hheap) as [_ Hnext].
  destruct (Hnext (__iter__ self) request) as [Hpage Hlimit]; [by left|done|].
  split; [done|]. rewrite Hlimit, Hsize. reflexivity.
Defined.

Example default_page_size :
  next (__iter__ 1%nat) (__init__ (sample_view 3) ∅ sample_world).2
  = (inr (VInt 0), Suspended 1 100 [VInt 1; VInt 2],
     {| heap := (__init__ (sample_view 3) ∅ sample_world).2.(heap);
        remote := tt;
        calls := [ {["limit" := VInt 100; "skip" := VInt 0]} ] |}).
Proof. reflexivity. Qed.

(** ** Paged iteration *)

Section Paging.

Variable Remote : Type.
Implicit Types (w : world Remote) (me : Index Remote) (opts : dict).

Lemma keywords_page (page_size : pyval) (skip : Z) opts :
  opts !! "skip" = None →
  opts !! "limit" = None →
  keywords [("limit", page_size); ("skip", VInt skip)] opts
  = inr (page_request page_size skip opts).
Proof.
  intros Hskip Hlimit. unfold keywords, page_request. simpl.
  rewrite Hskip, Hlimit. by rewrite !bool_decide_eq_false_2 by (by intros [? ?]).
Qed.

Lemma page_request_lookup (page_size : pyval) (skip : Z) opts :
  page_request page_size skip opts !! "skip" = Some (VInt skip)
  ∧ page_request page_size skip opts !! "limit" = Some page_size.
Proof. split; apply lookup_union_Some_l; reflexivity. Qed.

Lemma next_created w self me opts :
  index_at w self me opts →
  opts !! "skip" = None →
  opts !! "limit" = None →
  next (Created self) w = next (Suspended self 0 []) w.
Proof.
  intros [Hself Hopts] Hskip Hlimit.
  unfold next, resume, mbind at 1, M_bind at 1, get_index at 1.
  rewrite Hself. unfold mbind at 1, M_bind at 1, get_dict. rewrite Hopts.
  rewrite Hskip, Hlimit. by rewrite !bool_decide_eq_false_2 by (by intros [? ?]).
Qed.

(** A page with a first row, of whatever length: the row is yielded, the
    counter advances by the page size and the iteration goes on. *)
Lemma next_page w self me opts size skip response b' x rest :
  index_at w self me opts →
  _page_size me = VInt size →
  opts !! "skip" = None →
  opts !! "limit" = None →
  _ref me (remote w) (page_request (VInt size) skip opts) = (inr response, b') →
  response !! "rows" = Some (VList (x :: rest)) →
  next (Suspended self skip []) w
  = (inr x, Suspended self (skip + size) rest,
     {| heap := heap w; remote := b';
        calls := calls w ++ [page_request (VInt size) skip opts] |}).
Proof.
  intros Hat Hsize Hskip Hlimit Hcall Hrows. unfold next, resume.
  rewrite (turn_run _ _ _ _ _ _ Hat), Hsize, (keywords_page _ _ _ Hskip Hlimit).
  unfold after_call. by rewrite Hcall; simpl; rewrite Hrows.
Qed.

(** A page without rows ends the iteration. *)
Lemma next_empty_page w self me opts size skip response b' :
  index_at w self me opts →
  _page_size me = VInt size →
  opts !! "skip" = None →
  opts !! "limit" = None →
  _ref me (remote w) (page_request (VInt size) skip opts) = (inr response, b') →
  default (VList []) (response !! "rows") = VList [] →
  next (Suspended self skip []) w
  = (inl (Builtin StopIteration), Finished,
     {| heap := heap w; remote := b';
        calls := calls w ++ [page_request (VInt size) skip opts] |}).
Proof.
  intros Hat Hsize Hskip Hlimit Hcall Hrows. unfold next, resume.
  rewrite (turn_run _ _ _ _ _ _ Hat), Hsize, (keywords_page _ _ _ Hskip Hlimit).
  unfold after_call. by rewrite Hcall; simpl; rewrite Hrows.
Qed.

(** The rows still pending from the current page come first, without any
    call. *)
Lemma exhaust_pending fuel self skip (pending : list pyval) w :
  exhaust (length pending + fuel) (Suspended self skip pending) w
  = let '(r, g, w') := exhaust fuel (Suspended self skip []) w in
    (prepend pending r, g, w').
Proof.
  induction pending as [|x rest IH].
  - simpl length. rewrite Nat.add_0_l.
    destruct (exhaust fuel (Suspended self skip []) w) as [[[[e|ys]|] g] w'];
      reflexivity.
  - change (exhaust (length (x :: rest) + fuel) (Suspended self skip (x :: rest)) w)
      with (let '(r, g'', w'') :=
              exhaust (length rest + fuel) (Suspended self skip rest) w in
            (match r with
             | Some (inr xs) => Some (inr (x :: xs))
             | other => other
             end, g'', w'')).
    rewrite IH.
    destruct (exhaust fuel (Suspended self skip []) w) as [[[[e|ys]|] g] w'];
      reflexivity.
Qed.

(** An iteration that is served the non-empty [pages] and then a page
    without rows yields the rows of the pages in order, makes one call per
    page and one for the empty page, and then stops. *)
Lemma exhaust_serves (pages : list (list pyval)) :
  ∀ w self me opts size skip b_end fuel,
    index_at w self me opts →
    _page_size me = VInt size →
    opts !! "skip" = None →
    opts !! "limit" = None →
    serves (_ref me) size opts (remote w) skip pages b_end →
    (length (concat pages) < fuel)%nat →
    exhaust fuel (Suspended self skip []) w
    = (Some (inr (concat pages)), Finished,
       {| heap := heap w; remote := b_end;
          calls := calls w ++ requests size opts skip (S (length pages)) |}).
Proof.
  induction pages as [|page pages IH];
    intros w self me opts size skip b_end fuel Hat Hsize Hskip Hlimit Hserves Hfuel.
  - destruct Hserves as (response & Hcall & Hrows).
    destruct fuel as [|fuel]; [simpl in Hfuel; lia|].
    cbn [exhaust].
    by rewrite (next_empty_page _ _ _ _ _ _ _ _ Hat Hsize Hskip Hlimit Hcall Hrows).
  - destruct Hserves as (Hne & response & b' & Hcall & Hrows & Hserves).
    destruct page as [|x rest]; [done|].
    destruct fuel as [|fuel]; [simpl in Hfuel; lia|].
    cbn [exhaust].
    rewrite (next_page _ _ _ _ _ _ _ _ _ _ Hat Hsize Hskip Hlimit Hcall Hrows).
    simpl in Hfuel. rewrite length_app in Hfuel.
    replace fuel with (length rest + (fuel - length rest))%nat by lia.
    rewrite exhaust_pending.
    rewrite (IH _ self me opts size (skip + size) b_end); [|done..|simpl; lia].
    simpl. by rewrite <-app_assoc.
Qed.

End Paging.

(** C3.  With page size 100, over a callable that answers the successive
    requests with pages of 100, 100, 37 and 0 rows, the iteration yields the
    237 rows in the order of the pages, makes exactly four calls, the n-th
    with [skip] equal to (n-1) times 100 and [limit] 100, and stops on the
    empty page; a page with a first row keeps the iteration going whatever
    its length, the page of 37 rows included. *)
Theorem iteration_over_four_pages {Remote : Type} (w : world Remote)
    (self : loc) (me : Index Remote) (opts : dict)
    (p1 p2 p3 : list pyval) (r1 r2 r3 r4 : dict) (b1 b2 b3 b4 : Remote) :
  index_at w self me opts →
  _page_size me = VInt 100 →
  opts !! "skip" = None →
  opts !! "limit" = None →
  length p1 = 100%nat → length p2 = 100%nat → length p3 = 37%nat →
  _ref me (remote w) (page_request (VInt 100) 0 opts) = (inr r1, b1) →
  r1 !! "rows" = Some (VList p1) →
  _ref me b1 (page_request (VInt 100) 100 opts) = (inr r2, b2) →
  r2 !! "rows" = Some (VList p2) →
  _ref me b2 (page_request (VInt 100) 200 opts) = (inr r3, b3) →
  r3 !! "rows" = Some (VList p3) →
  _ref me b3 (page_request (VInt 100) 300 opts) = (inr r4, b4) →
  r4 !! "rows" = Some (VList []) →
  (∀ fuel, (237 < fuel)%nat →
     exhaust fuel (__iter__ self) w
     = (Some (inr (p1 ++ p2 ++ p3)), Finished,
        {| heap := heap w; remote := b4;
           calls := calls w ++ [page_request (VInt 100) 0 opts;
                                page_request (VInt 100) 100 opts;
                                page_request (VInt 100) 200 opts;
                                page_request (VInt 100) 300 opts] |}))
  ∧ length (p1 ++ p2 ++ p3) = 237%nat
  ∧ (∀ n request,
       [page_request (VInt 100) 0 opts; page_request (VInt 100) 100 opts;
        page_request (VInt 100) 200 opts; page_request (VInt 100) 300 opts]
         !! n = Some request →
       request !! "skip" = Some (VInt (Z.of_nat n * 100))
       ∧ request !! "limit" = Some (VInt 100))
  ∧ (∀ w' skip response b' x rest,
       index_at w' self me opts →
       _ref me (remote w') (page_request (VInt 100) skip opts)
       = (inr response, b') →
       response !! "rows" = Some (VList (x :: rest)) →
       next (Suspended self skip []) w'
       = (inr x, Suspended self (skip + 100) rest,
          {| heap := heap w'; remote := b';
             calls := calls w' ++ [page_request (VInt 100) skip opts] |})).
Proof.
  intros Hat Hsize Hskip Hlimit Hl1 Hl2 Hl3 Hc1 Hr1 Hc2 Hr2 Hc3 Hr3 Hc4 Hr4.
  split; [|split; [|split]].
  - intros fuel Hfuel.
    assert (Hserves : serves (_ref me) 100 opts (remote w) 0 [p1; p2; p3] b4).
    { simpl. split; [by intros ->|]. exists r1, b1. do 2 (split; [done|]).
      split; [by intros ->|]. exists r2, b2. do 2 (split; [done|]).
      split; [by intros ->|]. exists r3, b3. do 2 (split; [done|]).
      exists r4. split; [done|]. by rewrite Hr4. }
    pose proof (exhaust_serves _ [p1; p2; p3] w self me opts 100 0 b4 fuel
                  Hat Hsize Hskip Hlimit Hserves) as Hrun.
    simpl in Hrun. rewrite app_nil_r in Hrun.
    rewrite !length_app, Hl1, Hl2, Hl3 in Hrun. specialize (Hrun Hfuel).
    destruct fuel as [|fuel]; [lia|].
    unfold __iter__. cbn [exhaust].
    rewrite (next_created _ _ _ _ _ Hat Hskip Hlimit). exact Hrun.
  - by rewrite !length_app, Hl1, Hl2, Hl3.
  - intros n request Hn.
    destruct n as [|[|[|[|n]]]]; simpl in Hn; try discriminate Hn;
      injection Hn as <-; apply page_request_lookup.
  - intros w' skip response b' x rest Hat' Hcall Hrows.
    by apply (next_page _ _ _ me opts 100 skip response).
Qed.

Lemma iteration_over_four_pages_witness :
  let w := (__init__ (sample_view 237) ∅ sample_world).2 in
  exhaust 238 (__iter__ 1%nat) w
  = (Some (inr (sample_rows 0 100 ++ sample_rows 100 100 ++ sample_rows 200 37)),
     Finished,
     {| heap := heap w; remote := tt;
        calls := calls w ++ [page_request (VInt 100) 0 ∅;
                             page_request (VInt 100) 100 ∅;
                             page_request (VInt 100) 200 ∅;
                             page_request (VInt 100) 300 ∅] |}).
Proof.
  intros w.
  destruct (iteration_over_four_pages w 1%nat
              {| options := 0%nat; _ref := sample_view 237;
                 _page_size := VInt 100;
                 _valid_args := (map_to_list ARG_TYPES).*1 |}
              ∅
              (sample_rows 0 100) (sample_rows 100 100) (sample_rows 200 37)
              {["rows" := VList (sample_rows 0 100)]}
              {["rows" := VList (sample_rows 100 100)]}
              {["rows" := VList (sample_rows 200 37)]}
              {["rows" := VList []]}
              tt tt tt tt)
    as [Hrun _]; [split; reflexivity | vm_compute; reflexivity .. | ].
  apply Hrun. lia.
Defined.

Example iteration_over_seven_rows_by_three :
  let w := (__init__ (sample_view 7) {["page_size" := VInt 3]} sample_world).2 in
  exhaust 20 (__iter__ 1%nat) w
  = (Some (inr (sample_rows 0 7)), Finished,
     {| heap := heap w; remote := tt;
        calls := [page_request (VInt 3) 0 ∅; page_request (VInt 3) 3 ∅;
                  page_request (VInt 3) 6 ∅; page_request (VInt 3) 9 ∅] |}).
Proof. vm_compute. reflexivity. Qed.

(** ** The Index is read-only *)

Section ReadOnly.

Variable Remote : Type.
Implicit Types (w : world Remote) (me : Index Remote) (opts : dict).

Lemma call_ref_heap self named w : heap (call_ref self named w).2 = heap w.
Proof.
  unfold call_ref, mbind, M_bind, get_index, get_dict, raise, invoke.
  destruct (heap w !! self) as [[d|me]|]; try done.
  destruct (heap w !! options me) as [[d|me']|]; try done.
  destruct (keywords named d) as [e|kwargs]; try done.
  by destruct (_ref me (remote w) kwargs).
Qed.


Lemma turn_heap self skip w : heap (turn self skip w).2 = heap w.
Proof.
  unfold turn, mbind at 1, M_bind at 1, get_index.
  destruct (heap w !! self) as [[d|me]|]; try done.
  unfold mbind at 1, M_bind at 1.
  pose proof (call_ref_heap self
                [("limit", _page_size me); ("skip", VInt skip)] w) as Hcall.
  destruct (call_ref self _ w) as [[e|response] w']; [done|].
  unfold mbind, M_bind, lift, raise, mret, M_ret.
  destruct (add skip (_page_size me)) as [e|skip']; [done|].
  by destruct (items_of _) as [e|[|x rest]].
Qed.

Lemma next_heap g w : heap (next g w).2 = heap w.
Proof.
  assert (Hturn : ∀ self skip,
    heap (match turn self skip w with
          | (inr (x, g'), w') => (inr x, g', w')
          | (inl e, w') => (inl e, Finished, w')
          end).2 = heap w).
  { intros self skip. pose proof (turn_heap self skip w) as H.
    by destruct (turn self skip w) as [[e|[x g']] w']. }
  unfold next. destruct g as [self|self skip [|x rest]|]; simpl; try done.
  unfold mbind, M_bind, get_index, get_dict.
  destruct (heap w !! self) as [[d|me]|]; try done.
  destruct (heap w !! options me) as [[d|me']|]; try done.
  destruct (bool_decide (is_Some (d !! "skip"))); [done|].
  destruct (bool_decide (is_Some (d !! "limit"))); [done|].
  apply Hturn.
Qed.

Lemma index_at_same_heap w w' self me opts :
  heap w' = heap w → index_at w self me opts → index_at w' self me opts.
Proof. intros Hheap [? ?]. split; by rewrite Hheap. Qed.

(** What a step of an iteration yields, and the frame it leaves, depend on
    the heap and on the answers of the callable only. *)
Lemma next_by_request w1 w2 self me opts g :
  index_at w1 self me opts →
  heap w2 = heap w1 →
  answers_by_request (_ref me) →
  over self g →
  (next g w1).1 = (next g w2).1.
Proof.
  intros Hat1 Hheap Hanswers Hg.
  pose proof (index_at_same_heap _ _ _ _ _ Hheap Hat1) as Hat2.
  assert (Hturn : ∀ skip,
    (match turn self skip w1 with
     | (inr (x, g'), w') => (inr x, g', w')
     | (inl e, w') => (inl e, Finished, w')
     end).1
    = (match turn self skip w2 with
       | (inr (x, g'), w') => (inr x, g', w')
       | (inl e, w') => (inl e, Finished, w')
       end).1).
  { intros skip.
    rewrite (turn_run _ _ _ _ _ _ Hat1), (turn_run _ _ _ _ _ _ Hat2).
    destruct (keywords _ opts) as [e|kwargs]; [done|].
    rewrite (Hanswers (remote w1) (remote w2) kwargs).
    destruct (_ref me (remote w2) kwargs).1 as [e|response]; [done|].
    destruct (add skip (_page_size me)) as [e|skip']; [done|].
    by destruct (items_of _) as [e|[|x rest]]. }
  unfold next. destruct g as [self'|self' skip [|x rest]|]; simpl; try done.
  - destruct Hg as [[= ->]|]; [|done].
    unfold mbind, M_bind, get_index, get_dict.
    rewrite (proj1 Hat1), (proj2 Hat1), (proj1 Hat2), (proj2 Hat2).
    destruct (bool_decide (is_Some (opts !! "skip"))); [done|].
    destruct (bool_decide (is_Some (opts !! "limit"))); [done|].
    apply Hturn.
  - destruct Hg as [[= ->]|]; [|done]. apply Hturn.
Qed.

Lemma next_over w self me opts g :
  index_at w self me opts → over self g → over self (next g w).1.2.
Proof.
  intros Hat Hg.
  assert (Hturn : ∀ skip,
    over self (match turn self skip w with
               | (inr (x, g'), w') => (inr x, g', w')
               | (inl e, w') => (inl e, Finished, w')
               end).1.2).
  { intros skip. rewrite (turn_run _ _ _ _ _ _ Hat).
    destruct (keywords _ opts) as [e|kwargs]; [by right|].
    destruct (_ref me (remote w) kwargs).1 as [e|response]; [by right|].
    destruct (add skip (_page_size me)) as [e|skip']; [by right|].
    destruct (items_of _) as [e|[|x rest]]; [by right|by right|by left]. }
  unfold next. destruct g as [self'|self' skip [|x rest]|]; simpl.
  - destruct Hg as [[= ->]|]; [|done].
    unfold mbind, M_bind, get_index, get_dict.
    rewrite (proj1 Hat), (proj2 Hat).
    destruct (bool_decide (is_Some (opts !! "skip"))); [by right|].
    destruct (bool_decide (is_Some (opts !! "limit"))); [by right|].
    apply Hturn.
  - destruct Hg as [[= ->]|]; [|done]. apply Hturn.
  - destruct Hg as [[= ->]|]; [|done]. by left.
  - by right.
Qed.

Lemma pulls_by_request n : ∀ w1 w2 self me opts g,
  index_at w1 self me opts →
  heap w2 = heap w1 →
  answers_by_request (_ref me) →
  over self g →
  (pulls n g w1).1 = (pulls n g w2).1.
Proof.
  induction n as [|n IH]; intros w1 w2 self me opts g Hat Hheap Hanswers Hg;
    [done|].
  simpl.
  pose proof (next_by_request _ _ _ _ _ _ Hat Hheap Hanswers Hg) as Hsame.
  pose proof (next_over _ _ _ _ _ Hat Hg) as Hover.
  pose proof (next_heap g w1) as Hheap1. pose proof (next_heap g w2) as Hheap2.
  destruct (next g w1) as [[r1 g1] w1'], (next g w2) as [[r2 g2] w2'].
  simpl in *. injection Hsame as <- <-.
  assert (Hrest : (pulls n g1 w1').1 = (pulls n g1 w2').1).
  { apply (IH _ _ self me opts); [|congruence|done..].
    by apply (index_at_same_heap w1). }
  destruct (pulls n g1 w1') as [[rs1 g1'] w1''],
           (pulls n g1 w2') as [[rs2 g2'] w2''].
  simpl in *. by injection Hrest as <- <-.
Qed.


End ReadOnly.



Example two_iterations_interleaved :
  let w := (__init__ (sample_view 4) {["page_size" := VInt 3]} sample_world).2 in
  (interleaved [true; false; false; true; false; true; false; true; true;
                false; false; true] (__iter__ 1%nat) (__iter__ 1%nat) w).1
  = ([inr (VInt 0); inr (VInt 1); inr (VInt 2); inr (VInt 3);
      inl (Builtin StopIteration); inl (Builtin StopIteration)],
     [inr (VInt 0); inr (VInt 1); inr (VInt 2); inr (VInt 3);
      inl (Builtin StopIteration); inl (Builtin StopIteration)]).
Proof. vm_compute. reflexivity. Qed.

(** * Further properties *)

(** ** The translator: errors *)

Section TranslatorErrors.

Variable json_dumps : pyval → builtin_exn + string.


(** An entry that fails makes the whole translation fail, and when it is the
    only one that fails, its error is the one raised, whatever the order of
    iteration. *)
Lemma python_to_couch_entry_fails options k v e :
  options !! k = Some v →
  translate_value json_dumps k v = inl e →
  ¬ succeeds (python_to_couch json_dumps options)
  ∧ (succeeds (python_to_couch json_dumps (delete k options)) →
     python_to_couch json_dumps options = inl e).
Proof.
  intros Hk Hbad.
  assert (Hfails : ¬ succeeds (python_to_couch json_dumps options)).
  { intros Hok.
    destruct (python_to_couch_succeeds_inv _ _ _ _ Hok Hk) as [w Hw]. congruence. }
  split; [done|]. intros Hrest.
  destruct (python_to_couch json_dumps options) as [e'|result] eqn:Hres.
  - apply python_to_couch_raises in Hres as (k' & v' & Hk' & He').
    destruct (decide (k' = k)) as [->|Hne].
    + rewrite Hk in Hk'. injection Hk' as <-. congruence.
    + assert (Hs : succeeds (translate_value json_dumps k' v')).
      { apply (python_to_couch_succeeds_inv _ _ _ _ Hrest).
        by rewrite lookup_delete_ne. }
      destruct Hs as [w Hw]. congruence.
  - exfalso. apply Hfails. by exists result.
Qed.

End TranslatorErrors.



(** X2.  A name that is not in the catalog makes the translation fail,
    whatever its value and whatever else the mapping holds; when the rest of
    the mapping translates, the error raised is the one that names it. *)
Theorem unknown_name_is_rejected
    (json_dumps : pyval → builtin_exn + string) (options : dict)
    (k : string) (v : pyval) :
  options !! k = Some v →
  ARG_TYPES !! k = None →
  ¬ succeeds (python_to_couch json_dumps options)
  ∧ (succeeds (python_to_couch json_dumps (delete k options)) →
     python_to_couch json_dumps options
     = inl (CloudantArgumentError (Invalid_Argument k))).
Proof.
  intros Hk Hcat. apply (python_to_couch_entry_fails _ _ _ v); [done|].
  unfold translate_value. by rewrite Hcat.
Qed.

Lemma unknown_name_is_rejected_witness :
  let options : dict := {["bogus" := VInt 1; "include_docs" := VBool true]} in
  ¬ succeeds (python_to_couch sample_dumps options)
  ∧ (succeeds (python_to_couch sample_dumps (delete "bogus" options)) →
     python_to_couch sample_dumps options
     = inl (CloudantArgumentError (Invalid_Argument "bogus"))).
Proof.
  intros options.
  apply (unknown_name_is_rejected sample_dumps options "bogus" (VInt 1));
    reflexivity.
Defined.

(** X3.  A value that is no instance of a type declared for its name makes
    the translation fail; when the rest of the mapping translates, the error
    raised names the option and the types expected.  The type is checked
    before the value of [stale] is. *)
Theorem wrong_type_is_rejected
    (json_dumps : pyval → builtin_exn + string) (options : dict)
    (k : string) (v : pyval) (expected : list Py.type) :
  options !! k = Some v →
  ARG_TYPES !! k = Some expected →
  isinstance v expected = false →
  ¬ succeeds (python_to_couch json_dumps options)
  ∧ (succeeds (python_to_couch json_dumps (delete k options)) →
     python_to_couch json_dumps options
     = inl (CloudantArgumentError
              (Argument_not_instance_of_expected_type k expected))).
Proof.
  intros Hk Hcat Hinst. apply (python_to_couch_entry_fails _ _ _ v); [done|].
  unfold translate_value. by rewrite Hcat, Hinst.
Qed.

Lemma wrong_type_is_rejected_witness :
  let options : dict := {["stale" := VInt 5; "include_docs" := VBool true]} in
  ¬ succeeds (python_to_couch sample_dumps options)
  ∧ (succeeds (python_to_couch sample_dumps (delete "stale" options)) →
     python_to_couch sample_dumps options
     = inl (CloudantArgumentError
              (Argument_not_instance_of_expected_type "stale" [Py.basestring]))).
Proof.
  intros options.
  apply (wrong_type_is_rejected sample_dumps options "stale" (VInt 5));
    reflexivity.
Defined.

(** X4.  When [json.dumps] raises on a string or on a sequence, the
    translation raises the argument error that carries the name of the
    option and the exception; a tuple is handed to [json.dumps] as the list
    of its items. *)
Theorem conversion_failure_is_wrapped
    (json_dumps : pyval → builtin_exn + string) (options : dict)
    (k : string) (v x : pyval) (expected : list Py.type) (ex : builtin_exn) :
  options !! k = Some v →
  ARG_TYPES !! k = Some expected →
  isinstance v expected = true →
  (k = "stale" → in_strs v ["ok"; "update_after"] = true) →
  dumped v = Some x →
  json_dumps x = inl ex →
  ¬ succeeds (python_to_couch json_dumps options)
  ∧ (succeeds (python_to_couch json_dumps (delete k options)) →
     python_to_couch json_dumps options
     = inl (CloudantArgumentError (Error_converting_arg k ex))).
Proof.
  intros Hk Hcat Hinst Hstale Hdumped Hraise.
  apply (python_to_couch_entry_fails _ _ _ v); [done|].
  unfold translate_value. rewrite Hcat, Hinst. cbn [negb].
  assert (Hcheck : bool_decide (k = "stale")
                   && negb (in_strs v ["ok"; "update_after"]) = false).
  { case_bool_decide as Hs; [|done]. by rewrite (Hstale Hs). }
  rewrite Hcheck.
  destruct v; try discriminate Hdumped; injection Hdumped as <-;
    simpl; unfold dumps; by rewrite Hraise.
Qed.

Lemma conversion_failure_is_wrapped_witness :
  let options : dict :=
    {["key" := VTuple [VStr "2013"; VObject 0]; "include_docs" := VBool true]} in
  ¬ succeeds (python_to_couch sample_dumps options)
  ∧ (succeeds (python_to_couch sample_dumps (delete "key" options)) →
     python_to_couch sample_dumps options
     = inl (CloudantArgumentError (Error_converting_arg "key" TypeError))).
Proof.
  intros options.
  apply (conversion_failure_is_wrapped sample_dumps options "key"
           (VTuple [VStr "2013"; VObject 0]) (VList [VStr "2013"; VObject 0])
           [Py.int; Py.basestring; Py.Sequence] TypeError);
    try reflexivity.
  intros Hstale. discriminate Hstale.
Defined.

(** ** The translator: results *)

Section TranslatorResults.

Variable json_dumps : pyval → builtin_exn + string.

(** The loop, run over the items of [options] in any order. *)
Lemma translate_items_any_order items options result :
  items ≡ₚ map_to_list options →
  translate_items json_dumps items ∅ = inr result →
  (∀ k v, options !! k = Some v →
     ∃ w, translate_value json_dumps k v = inr w ∧ result !! k = Some w)
  ∧ (∀ k, options !! k = None → result !! k = None).
Proof.
  intros Hperm Hok.
  assert (Hnd : NoDup items.*1).
  { rewrite Hperm. apply NoDup_fst_map_to_list. }
  destruct (translate_items_lookup _ _ _ _ Hnd Hok) as [Hin Hout]. split.
  - intros k v Hk. apply Hin. rewrite Hperm. by apply elem_of_map_to_list.
  - intros k Hk. rewrite Hout; [done|].
    intros ([k' v] & -> & Hin')%list_elem_of_fmap.
    rewrite Hperm in Hin'. apply elem_of_map_to_list in Hin'.
    simpl in Hk. congruence.
Qed.

Lemma translate_items_succeeds_inv items result k v :
  succeeds (translate_items json_dumps items result) →
  (k, v) ∈ items →
  succeeds (translate_value json_dumps k v).
Proof.
  revert result. induction items as [|[k' v'] rest IH]; intros result Hok Hin.
  - by apply elem_of_nil in Hin.
  - simpl in Hok.
    destruct (translate_value json_dumps k' v') as [e|w] eqn:Hv;
      [by destruct Hok|].
    apply elem_of_cons in Hin as [[= -> ->]|Hin]; [by exists w|].
    by apply (IH (<[k' := w]> result)).
Qed.

End TranslatorResults.

(** X5.  The order in which the items of the mapping are visited, which
    Python does not fix, changes neither whether the translation succeeds nor
    its result. *)
Theorem translation_is_independent_of_the_order
    (json_dumps : pyval → builtin_exn + string) (options : dict)
    (items : list (string * pyval)) :
  items ≡ₚ map_to_list options →
  (∀ result,
     translate_items json_dumps items ∅ = inr result
     ↔ python_to_couch json_dumps options = inr result)
  ∧ (succeeds (translate_items json_dumps items ∅)
     ↔ succeeds (python_to_couch json_dumps options)).
Proof.
  intros Hperm.
  assert (Hsame : ∀ r1 r2,
    translate_items json_dumps items ∅ = inr r1 →
    python_to_couch json_dumps options = inr r2 → r1 = r2).
  { intros r1 r2 H1 H2.
    destruct (translate_items_any_order _ _ _ _ Hperm H1) as [Hin1 Hout1].
    destruct (python_to_couch_lookup _ _ _ H2) as [Hin2 Hout2].
    apply map_eq. intros k. destruct (options !! k) as [v|] eqn:Hk.
    - destruct (Hin1 _ _ Hk) as (w1 & Hw1 & ->).
      destruct (Hin2 _ _ Hk) as (w2 & Hw2 & ->). congruence.
    - by rewrite (Hout1 _ Hk), (Hout2 _ Hk). }
  assert (Hsucc : succeeds (translate_items json_dumps items ∅)
                  ↔ succeeds (python_to_couch json_dumps options)).
  { split; intros Hok.
    - apply python_to_couch_succeeds. intros k v Hk.
      apply (translate_items_succeeds_inv _ items ∅); [done|].
      rewrite Hperm. by apply elem_of_map_to_list.
    - apply translate_items_succeeds. intros k v Hin.
      rewrite Hperm in Hin. apply elem_of_map_to_list in Hin.
      by apply (python_to_couch_succeeds_inv _ options). }
  split; [|done]. intros result. split; intros Hres.
  - destruct (proj1 Hsucc) as [r2 H2]; [by exists result|].
    by rewrite H2, (Hsame _ _ Hres H2).
  - destruct (proj2 Hsucc) as [r1 H1]; [by exists result|].
    by rewrite H1, (Hsame _ _ H1 Hres).
Qed.

Lemma translation_is_independent_of_the_order_witness :
  let options : dict :=
    {["include_docs" := VBool true; "limit" := VInt 10; "stale" := VStr "ok"]} in
  let items := [("include_docs", VBool true); ("stale", VStr "ok");
                ("limit", VInt 10)] in
  (∀ result,
     translate_items sample_dumps items ∅ = inr result
     ↔ python_to_couch sample_dumps options = inr result)
  ∧ (succeeds (translate_items sample_dumps items ∅)
     ↔ succeeds (python_to_couch sample_dumps options)).
Proof.
  intros options items.
  apply (translation_is_independent_of_the_order sample_dumps options items).
  vm_compute. apply perm_swap.
Defined.

(** X6.  In a successful translation a boolean becomes the token [true] or
    [false], under whatever name it stands (as a subclass of [int] it is
    accepted for [key], [limit] and [skip] too), and an integer and [None]
    are passed through as they are. *)
Theorem booleans_become_tokens_integers_pass
    (json_dumps : pyval → builtin_exn + string) (options result : dict)
    (k : string) :
  python_to_couch json_dumps options = inr result →
  (∀ b, options !! k = Some (VBool b) →
        result !! k = Some (VStr (if b then "true" else "false")))
  ∧ (∀ n, options !! k = Some (VInt n) → result !! k = Some (VInt n))
  ∧ (options !! k = Some VNone → result !! k = Some VNone).
Proof.
  intros [Hin _]%python_to_couch_lookup.
  assert (Hscalar : ∀ v w,
    match v with VBool _ | VInt _ | VNone => True | _ => False end →
    translate_value json_dumps k v = inr w →
    w = match v with
        | VBool b => VStr (if b then "true" else "false")
        | other => other
        end).
  { intros v w Hv. unfold translate_value.
    destruct (ARG_TYPES !! k) as [expected|]; [|done].
    destruct (negb (isinstance v expected)); [done|].
    destruct (bool_decide (k = "stale") && negb (in_strs v ["ok"; "update_after"]));
      [done|].
    destruct v; try done; simpl; by intros [= <-]. }
  split; [|split].
  - intros b Hk. destruct (Hin _ _ Hk) as (w & Hw & ->).
    by rewrite (Hscalar (VBool b) w I Hw).
  - intros n Hk. destruct (Hin _ _ Hk) as (w & Hw & ->).
    by rewrite (Hscalar (VInt n) w I Hw).
  - intros Hk. destruct (Hin _ _ Hk) as (w & Hw & ->).
    by rewrite (Hscalar VNone w I Hw).
Qed.

Lemma booleans_become_tokens_integers_pass_witness :
  let options : dict :=
    {["descending" := VBool false; "limit" := VBool true; "skip" := VInt 5]} in
  let result : dict :=
    {["descending" := VStr "false"; "limit" := VStr "true"; "skip" := VInt 5]} in
  (∀ b, options !! "limit" = Some (VBool b) →
        result !! "limit" = Some (VStr (if b then "true" else "false")))
  ∧ (∀ n, options !! "limit" = Some (VInt n) → result !! "limit" = Some (VInt n))
  ∧ (options !! "limit" = Some VNone → result !! "limit" = Some VNone).
Proof.
  intros options result.
  apply (booleans_become_tokens_integers_pass sample_dumps options result "limit").
  reflexivity.
Defined.

(** X7.  In a successful translation a string and a list are replaced by
    the text [json.dumps] gives for them, and a tuple by the text it gives
    for the list of the same items. *)
Theorem strings_and_sequences_become_json_text
    (json_dumps : pyval → builtin_exn + string) (options result : dict)
    (k : string) (v x : pyval) :
  python_to_couch json_dumps options = inr result →
  options !! k = Some v →
  dumped v = Some x →
  ∃ text, json_dumps x = inr text ∧ result !! k = Some (VStr text).
Proof.
  intros [Hin _]%python_to_couch_lookup Hk Hdumped.
  destruct (Hin _ _ Hk) as (w & Hw & ->).
  unfold translate_value in Hw.
  destruct (ARG_TYPES !! k) as [expected|]; [|done].
  destruct (negb (isinstance v expected)); [done|].
  destruct (bool_decide (k = "stale") && negb (in_strs v ["ok"; "update_after"]));
    [done|].
  destruct v; try discriminate Hdumped; injection Hdumped as <-;
    simpl in Hw; unfold dumps in Hw;
    match type of Hw with
    | context [json_dumps ?y] => destruct (json_dumps y) as [ex|text]
    end; try done; injection Hw as <-; by exists text.
Qed.

Lemma strings_and_sequences_become_json_text_witness :
  let options : dict := {["startkey" := VTuple [VStr "2013"; VStr "10"]]} in
  let result : dict :=
    {["startkey" := VStr ("[" +:+ quote +:+ "2013" +:+ quote +:+ ", "
                          +:+ quote +:+ "10" +:+ quote +:+ "]")]} in
  ∃ text,
    sample_dumps (VList [VStr "2013"; VStr "10"]) = inr text
    ∧ result !! "startkey" = Some (VStr text).
Proof.
  intros options result.
  apply (strings_and_sequences_become_json_text sample_dumps options result
           "startkey" (VTuple [VStr "2013"; VStr "10"]));
    reflexivity.
Defined.

(** X8.  The result of a translation holds only JSON text, integers and
    [None]: no native boolean, list or tuple is left in it. *)
Theorem translation_yields_wire_values
    (json_dumps : pyval → builtin_exn + string) (options result : dict)
    (k : string) (w : pyval) :
  python_to_couch json_dumps options = inr result →
  result !! k = Some w →
  (∃ text, w = VStr text) ∨ (∃ n, w = VInt n) ∨ w = VNone.
Proof.
  intros Hok Hw.
  pose proof (python_to_couch_wire_form _ _ _ Hok k w Hw) as Hwire.
  destruct w; try discriminate Hwire; eauto.
Qed.

Lemma translation_yields_wire_values_witness :
  (∃ text, VStr "true" = VStr text) ∨ (∃ n, VStr "true" = VInt n)
  ∨ VStr "true" = VNone.
Proof.
  apply (translation_yields_wire_values sample_dumps
           {["include_docs" := VBool true; "limit" := VInt 10]}
           {["include_docs" := VStr "true"; "limit" := VInt 10]}
           "include_docs" (VStr "true"));
    reflexivity.
Defined.

(** ** Subscripts: the other branches *)





(** X11.  A subscript that returns has invoked the callable exactly once,
    and what it returns is the [rows] entry of the response of that call, as
    it is. *)
Theorem subscript_returns_the_rows_of_its_call {Remote : Type}
    (w w' : world Remote) (self : loc) (me : Index Remote) (opts : dict)
    (key rows : pyval) :
  index_at w self me opts →
  __getitem__ self key w = (inr rows, w') →
  ∃ kwargs data,
    new_calls w w' = [kwargs]
    ∧ w' = after_call me kwargs w
    ∧ (_ref me (remote w) kwargs).1 = inr data
    ∧ data !! "rows" = Some rows
    ∧ (∀ k v, opts !! k = Some v → kwargs !! k = Some v).
Proof.
  intros Hat. rewrite (getitem_run _ _ _ _ _ _ Hat).
  destruct (selected key) as [e|named]; [done|].
  destruct (keywords named opts) as [e|kwargs] eqn:Hkw; [done|].
  destruct (_ref me (remote w) kwargs).1 as [e|data] eqn:Hcall; [done|].
  destruct (data !! "rows") as [rows'|] eqn:Hrows; [|done].
  intros [= <- <-]. exists kwargs, data.
  split; [apply new_calls_after_call|]. do 3 (split; [done|]).
  by apply keywords_lookup in Hkw as (_ & Hsub & _).
Qed.

Lemma subscript_returns_the_rows_of_its_call_witness :
  let w := (__init__ (sample_view 3) ∅ sample_world).2 in
  let me := {| options := 0%nat; _ref := sample_view 3; _page_size := VInt 100;
               _valid_args := (map_to_list ARG_TYPES).*1 |} in
  ∃ kwargs data,
    new_calls w (__getitem__ 1%nat (VStr "k") w).2 = [kwargs]
    ∧ (__getitem__ 1%nat (VStr "k") w).2 = after_call me kwargs w
    ∧ (sample_view 3 (remote w) kwargs).1 = inr data
    ∧ data !! "rows" = Some (VList [VInt 0; VInt 1; VInt 2])
    ∧ (∀ k v, (∅ : dict) !! k = Some v → kwargs !! k = Some v).
Proof.
  intros w me.
  apply (subscript_returns_the_rows_of_its_call w _ 1%nat me ∅ (VStr "k")).
  - split; reflexivity.
  - reflexivity.
Defined.

(** X12.  When the callable raises, the subscript raises the same exception,
    and when the response has no [rows] entry, it raises [KeyError]; in both
    cases the call has been made. *)
Theorem subscript_passes_on_what_its_call_gives {Remote : Type}
    (w : world Remote) (self : loc) (me : Index Remote) (opts : dict)
    (key : pyval) (kwargs : dict) :
  index_at w self me opts →
  new_calls w (__getitem__ self key w).2 = [kwargs] →
  (__getitem__ self key w).2 = after_call me kwargs w
  ∧ (∀ e, (_ref me (remote w) kwargs).1 = inl e →
          (__getitem__ self key w).1 = inl e)
  ∧ (∀ data, (_ref me (remote w) kwargs).1 = inr data →
             data !! "rows" = None →
             (__getitem__ self key w).1 = inl (Builtin (KeyError "rows"))).
Proof.
  intros Hat. rewrite (getitem_run _ _ _ _ _ _ Hat).
  destruct (selected key) as [e|named];
    [simpl; by rewrite new_calls_same|].
  destruct (keywords named opts) as [e|kwargs'];
    [simpl; by rewrite new_calls_same|].
  simpl. rewrite new_calls_after_call. intros [= ->].
  split; [done|]. split.
  - by intros e ->.
  - by intros data -> ->.
Qed.

Lemma subscript_passes_on_what_its_call_gives_witness :
  let w := (__init__ sample_failing ∅ sample_world).2 in
  let me := {| options := 0%nat; _ref := sample_failing; _page_size := VInt 100;
               _valid_args := (map_to_list ARG_TYPES).*1 |} in
  let kwargs : dict := {["key" := VStr "k"]} in
  (__getitem__ 1%nat (VStr "k") w).2 = after_call me kwargs w
  ∧ (∀ e, (sample_failing (remote w) kwargs).1 = inl e →
          (__getitem__ 1%nat (VStr "k") w).1 = inl e)
  ∧ (∀ data, (sample_failing (remote w) kwargs).1 = inr data →
             data !! "rows" = None →
             (__getitem__ 1%nat (VStr "k") w).1 = inl (Builtin (KeyError "rows"))).
Proof.
  intros w me kwargs.
  apply (subscript_passes_on_what_its_call_gives w 1%nat me ∅ (VStr "k") kwargs).
  - split; reflexivity.
  - reflexivity.
Defined.

Example subscript_without_rows :
  let w := (__init__ sample_without_rows ∅ sample_world).2 in
  __getitem__ 1%nat (VStr "k") w
  = (inl (Builtin (KeyError "rows")),
     {| heap := heap w; remote := tt; calls := [ {["key" := VStr "k"]} ] |}).
Proof. reflexivity. Qed.

(** A keyword of the subscript that is also a fixed option. *)
Lemma getitem_keyword_twice {Remote : Type} (w : world Remote) (self : loc)
    (me : Index Remote) (opts : dict) (key : pyval)
    (named : list (string * pyval)) (k : string) :
  index_at w self me opts →
  selected key = inr named →
  k ∈ named.*1 →
  is_Some (opts !! k) →
  __getitem__ self key w = (inl (Builtin TypeError), w).
Proof.
  intros Hat Hsel Hk Hopt. rewrite (getitem_run _ _ _ _ _ _ Hat), Hsel.
  assert (Hkw : keywords named opts = inl (Builtin TypeError)).
  { unfold keywords.
    assert (Hdup : existsb (λ kv, bool_decide (is_Some (opts !! kv.1))) named
                   = true); [|by rewrite Hdup].
    apply existsb_exists.
    apply list_elem_of_fmap in Hk as ([k' v] & -> & Hin).
    exists (k', v). split; [by apply list_elem_of_In|].
    by apply bool_decide_eq_true_2. }
  by rewrite Hkw.
Qed.

(** X13.  When a fixed option has the name of a keyword the subscript passes
    itself, the call is a [TypeError] (a keyword given twice) and the callable
    does not run: a fixed [key] with a key lookup, a fixed [skip] or [limit]
    with a window of two integers, a fixed [startkey] or [endkey] with a
    range of two strings. *)
Theorem fixed_option_clashes_with_subscript {Remote : Type}
    (w : world Remote) (self : loc) (me : Index Remote) (opts : dict) :
  index_at w self me opts →
  (∀ key, isinstance key [Py.basestring; Py.list] = true →
          is_Some (opts !! "key") →
          __getitem__ self key w = (inl (Builtin TypeError), w))
  ∧ (∀ start_ stop_ step,
       is_Some (opts !! "skip") ∨ is_Some (opts !! "limit") →
       __getitem__ self (VSlice (VInt start_) (VInt stop_) step) w
       = (inl (Builtin TypeError), w))
  ∧ (∀ a b step,
       is_Some (opts !! "startkey") ∨ is_Some (opts !! "endkey") →
       __getitem__ self (VSlice (VStr a) (VStr b) step) w
       = (inl (Builtin TypeError), w)).
Proof.
  intros Hat. split; [|split].
  - intros key Hkey Hopt.
    apply (getitem_keyword_twice _ _ me opts key [("key", key)] "key");
      [done| |by apply list_elem_of_singleton|done].
    unfold selected. destruct key; try discriminate Hkey; reflexivity.
  - intros start_ stop_ step [Hopt|Hopt].
    + apply (getitem_keyword_twice _ _ me opts _
               [("skip", VInt start_); ("limit", VInt (stop_ - start_))] "skip");
        [done|reflexivity| |done].
      simpl. rewrite !elem_of_cons. by left.
    + apply (getitem_keyword_twice _ _ me opts _
               [("skip", VInt start_); ("limit", VInt (stop_ - start_))] "limit");
        [done|reflexivity| |done].
      simpl. rewrite !elem_of_cons. right. by left.
  - intros a b step [Hopt|Hopt].
    + apply (getitem_keyword_twice _ _ me opts _
               [("startkey", VStr a); ("endkey", VStr b)] "startkey");
        [done|reflexivity| |done].
      simpl. rewrite !elem_of_cons. by left.
    + apply (getitem_keyword_twice _ _ me opts _
               [("startkey", VStr a); ("endkey", VStr b)] "endkey");
        [done|reflexivity| |done].
      simpl. rewrite !elem_of_cons. right. by left.
Qed.

Lemma fixed_option_clashes_with_subscript_witness :
  let w := (__init__ (sample_view 3) {["key" := VStr "a"]} sample_world).2 in
  let opts : dict := {["key" := VStr "a"]} in
  is_Some (opts !! "key")
  ∧ __getitem__ 1%nat (VStr "b") w = (inl (Builtin TypeError), w).
Proof.
  intros w opts.
  assert (Hopt : is_Some (opts !! "key")) by (by eexists).
  split; [exact Hopt|].
  destruct (fixed_option_clashes_with_subscript w 1%nat
              {| options := 0%nat; _ref := sample_view 3;
                 _page_size := VInt 100;
                 _valid_args := (map_to_list ARG_TYPES).*1 |} opts)
    as [Hkey _].
  - split; reflexivity.
  - apply Hkey; [reflexivity|exact Hopt].
Defined.

(** X14.  The step of a slice is never read: two slices with the same bounds
    leave the same world, and give the same result unless the bounds are
    refused, in which case each error names its own slice. *)
Theorem slice_step_is_ignored {Remote : Type} (w : world Remote) (self : loc)
    (a b step1 step2 : pyval) :
  (__getitem__ self (VSlice a b step1) w).2
  = (__getitem__ self (VSlice a b step2) w).2
  ∧ ((__getitem__ self (VSlice a b step1) w).1
     = (__getitem__ self (VSlice a b step2) w).1
     ∨ ((__getitem__ self (VSlice a b step1) w).1
        = inl (CloudantArgumentError
                 (Failed_to_interpret_the_argument (VSlice a b step1)))
        ∧ (__getitem__ self (VSlice a b step2) w).1
          = inl (CloudantArgumentError
                   (Failed_to_interpret_the_argument (VSlice a b step2))))).
Proof.
  rewrite !getitem_selected.
  assert (Hsel : (∃ named, selected (VSlice a b step1) = inr named
                           ∧ selected (VSlice a b step2) = inr named)
                 ∨ (∃ e, selected (VSlice a b step1) = inl (Builtin e)
                         ∧ selected (VSlice a b step2) = inl (Builtin e))
                 ∨ (selected (VSlice a b step1)
                    = inl (CloudantArgumentError
                             (Failed_to_interpret_the_argument (VSlice a b step1)))
                    ∧ selected (VSlice a b step2)
                      = inl (CloudantArgumentError
                               (Failed_to_interpret_the_argument
                                  (VSlice a b step2))))).
  { unfold selected.
    change (isinstance (VSlice a b step1) [Py.basestring]) with false.
    change (isinstance (VSlice a b step1) [Py.list]) with false.
    change (isinstance (VSlice a b step1) [Py.slice]) with true.
    change (isinstance (VSlice a b step2) [Py.basestring]) with false.
    change (isinstance (VSlice a b step2) [Py.list]) with false.
    change (isinstance (VSlice a b step2) [Py.slice]) with true.
    cbn [orb start stop].
    destruct (type_or_none [Py.basestring; Py.list] a
              && type_or_none [Py.basestring; Py.list] b); [left; eauto|].
    destruct (type_or_none [Py.int] a && type_or_none [Py.int] b);
      [|right; right; done].
    destruct (is_None a); [left; eauto|].
    destruct (is_None b); [left; eauto|].
    destruct (sub b a) as [e|limit]; [right; left; eauto|left; eauto]. }
  destruct Hsel as [(named & -> & ->)|[(e & -> & ->)|[-> ->]]].
  - split; [done|]. by left.
  - split; [done|]. by left.
  - split; [done|]. by right.
Qed.

(** ** Iteration: the general run and its edges *)

(** X15.  With an integer page size, over a callable that serves any
    non-empty pages, of whatever sizes, and then a page without rows, an
    iteration yields the rows of the pages in order and stops; it makes one
    call per page and one for the empty page, and the [skip] of each call is
    the [skip] of the one before plus the page size, however many rows that
    page held. *)
Theorem iteration_over_pages {Remote : Type} (w : world Remote) (self : loc)
    (me : Index Remote) (opts : dict) (size : Z) (pages : list (list pyval))
    (b_end : Remote) (fuel : nat) :
  index_at w self me opts →
  _page_size me = VInt size →
  opts !! "skip" = None →
  opts !! "limit" = None →
  serves (_ref me) size opts (remote w) 0 pages b_end →
  (length (concat pages) < fuel)%nat →
  exhaust fuel (__iter__ self) w
  = (Some (inr (concat pages)), Finished,
     {| heap := heap w; remote := b_end;
        calls := calls w ++ requests size opts 0 (S (length pages)) |}).
Proof.
  intros Hat Hsize Hskip Hlimit Hserves Hfuel.
  rewrite <-(exhaust_serves _ pages w self me opts size 0 b_end fuel) by done.
  destruct fuel as [|fuel]; [lia|].
  unfold __iter__. cbn [exhaust].
  by rewrite (next_created _ _ _ _ _ Hat Hskip Hlimit).
Qed.

Lemma iteration_over_pages_witness :
  let w := (__init__ (sample_view 7) {["page_size" := VInt 3]} sample_world).2 in
  exhaust 8 (__iter__ 1%nat) w
  = (Some (inr (concat [sample_rows 0 3; sample_rows 3 3; sample_rows 6 1])),
     Finished,
     {| heap := heap w; remote := tt;
        calls := calls w ++ requests 3 ∅ 0 4 |}).
Proof.
  intros w.
  apply (iteration_over_pages w 1%nat
           {| options := 0%nat; _ref := sample_view 7; _page_size := VInt 3;
              _valid_args := (map_to_list ARG_TYPES).*1 |}
           ∅ 3 [sample_rows 0 3; sample_rows 3 3; sample_rows 6 1] tt 8).
  - split; reflexivity.
  - reflexivity.
  - reflexivity.
  - reflexivity.
  - simpl. split; [done|]. eexists _, tt. do 2 (split; [reflexivity|]).
    split; [done|]. eexists _, tt. do 2 (split; [reflexivity|]).
    split; [done|]. eexists _, tt. do 2 (split; [reflexivity|]).
    eexists. split; reflexivity.
  - simpl. lia.
Defined.

(** X16.  At a step that fetches a page, an exception of the callable goes
    through the iteration unchanged, and a response without [rows] counts as
    an empty page and stops the iteration; either way the call has been made
    and the generator is finished. *)
Theorem iteration_passes_on_what_its_call_gives {Remote : Type}
    (w : world Remote) (self : loc) (me : Index Remote) (opts : dict)
    (g : frame) (skip : Z) :
  index_at w self me opts →
  opts !! "skip" = None →
  opts !! "limit" = None →
  (g = __iter__ self ∧ skip = 0) ∨ g = Suspended self skip [] →
  let kwargs := page_request (_page_size me) skip opts in
  (∀ e, (_ref me (remote w) kwargs).1 = inl e →
        next g w = (inl e, Finished, after_call me kwargs w))
  ∧ (∀ response size,
       (_ref me (remote w) kwargs).1 = inr response →
       response !! "rows" = None →
       _page_size me = VInt size →
       next g w
       = (inl (Builtin StopIteration), Finished, after_call me kwargs w)).
Proof.
  intros Hat Hskip Hlimit Hg kwargs.
  assert (Hnext : next g w = next (Suspended self skip []) w).
  { destruct Hg as [[-> ->]| ->]; [|done].
    by apply (next_created _ _ _ me opts). }
  rewrite Hnext. unfold next, resume.
  rewrite (turn_run _ _ _ _ _ _ Hat), (keywords_page _ _ _ Hskip Hlimit).
  fold kwargs. split.
  - by intros e ->.
  - intros response size -> Hrows ->. by rewrite Hrows.
Qed.

Lemma iteration_passes_on_what_its_call_gives_witness :
  let w := (__init__ sample_failing ∅ sample_world).2 in
  let me := {| options := 0%nat; _ref := sample_failing; _page_size := VInt 100;
               _valid_args := (map_to_list ARG_TYPES).*1 |} in
  let kwargs := page_request (VInt 100) 0 ∅ in
  (∀ e, (sample_failing (remote w) kwargs).1 = inl e →
        next (__iter__ 1%nat) w = (inl e, Finished, after_call me kwargs w))
  ∧ (∀ response size,
       (sample_failing (remote w) kwargs).1 = inr response →
       response !! "rows" = None →
       VInt 100 = VInt size →
       next (__iter__ 1%nat) w
       = (inl (Builtin StopIteration), Finished, after_call me kwargs w)).
Proof.
  intros w me kwargs.
  apply (iteration_passes_on_what_its_call_gives w 1%nat me ∅ (__iter__ 1%nat) 0).
  - split; reflexivity.
  - reflexivity.
  - reflexivity.
  - by left.
Defined.

Example iteration_without_rows :
  let w := (__init__ sample_without_rows ∅ sample_world).2 in
  exhaust 5 (__iter__ 1%nat) w
  = (Some (inr []), Finished,
     {| heap := heap w; remote := tt;
        calls := [page_request (VInt 100) 0 ∅] |}).
Proof. reflexivity. Qed.






Section Laziness.

Variable Remote : Type.
Implicit Types (w : world Remote) (me : Index Remote) (opts : dict).

Lemma pulls_pending self skip (pending : list pyval) w :
  pulls (length pending) (Suspended self skip pending) w
  = (inr <$> pending, Suspended self skip [], w).
Proof.
  induction pending as [|x rest IH]; [done|].
  cbn [length pulls]. change (next (Suspended self skip (x :: rest)) w)
    with (inr x : exn + pyval, Suspended self skip rest, w).
  cbv beta iota. by rewrite IH.
Qed.

Lemma pulls_calls n : ∀ w self me opts g,
  index_at w self me opts →
  over self g →
  ∃ new, calls (pulls n g w).2 = calls w ++ new ∧ (length new ≤ n)%nat.
Proof.
  induction n as [|n IH]; intros w self me opts g Hat Hg.
  - exists []. by rewrite app_nil_r.
  - cbn [pulls].
    pose proof (next_effect _ _ _ _ _ g Hat Hg) as Heffect.
    pose proof (next_over _ _ _ _ _ g Hat Hg) as Hover.
    pose proof (next_heap _ g w) as Hheap.
    destruct (next g w) as [[r g'] w'] eqn:Hnext. simpl in *.
    pose proof (index_at_same_heap _ _ _ _ _ _ Hheap Hat) as Hat'.
    destruct (IH w' self me opts g' Hat' Hover) as (new & Hnew & Hlen).
    destruct (pulls n g' w') as [[rs g''] w''] eqn:Hpulls. simpl in *.
    destruct Heffect as [->|(named & kwargs & _ & _ & ->)].
    + exists new. split; [done|lia].
    + exists (kwargs :: new). simpl in Hnew. rewrite Hnew, <-app_assoc.
      split; [done|simpl; lia].
Qed.

Lemma pulls_heap n : ∀ g w, heap (pulls n g w).2 = heap w.
Proof.
  induction n as [|n IH]; intros g w; [done|]. simpl.
  pose proof (next_heap _ g w) as Hnext.
  destruct (next g w) as [[r g'] w']. pose proof (IH g' w') as Hrest.
  destruct (pulls n g' w') as [[rs g''] w'']. simpl in *. congruence.
Qed.

End Laziness.

(** X19.  An iteration fetches on demand: however far it is advanced, it
    has made at most one call per step asked of it, and the rows of a page
    already fetched are handed out, in order, without any call. *)
Theorem iteration_fetches_on_demand {Remote : Type} (w : world Remote)
    (self : loc) (me : Index Remote) (opts : dict) (g : frame) (n : nat) :
  index_at w self me opts →
  over self g →
  (∃ new, calls (pulls n g w).2 = calls w ++ new ∧ (length new ≤ n)%nat)
  ∧ (∀ skip pending,
       pulls (length pending) (Suspended self skip pending) w
       = (inr <$> pending, Suspended self skip [], w)).
Proof.
  intros Hat Hg. split.
  - by apply (pulls_calls _ n w self me opts).
  - intros skip pending. apply pulls_pending.
Qed.

Lemma iteration_fetches_on_demand_witness :
  let w := (__init__ (sample_view 7) {["page_size" := VInt 3]} sample_world).2 in
  (∃ new, calls (pulls 5 (__iter__ 1%nat) w).2 = calls w ++ new
          ∧ (length new ≤ 5)%nat)
  ∧ (∀ skip pending,
       pulls (length pending) (Suspended 1%nat skip pending) w
       = (inr <$> pending, Suspended 1%nat skip [], w)).
Proof.
  intros w.
  apply (iteration_fetches_on_demand w 1%nat
           {| options := 0%nat; _ref := sample_view 7; _page_size := VInt 3;
              _valid_args := (map_to_list ARG_TYPES).*1 |} ∅).
  - split; reflexivity.
  - by left.
Defined.

Example five_rows_cost_two_calls :
  let w := (__init__ (sample_view 7) {["page_size" := VInt 3]} sample_world).2 in
  (pulls 5 (__iter__ 1%nat) w).1.1
  = [inr (VInt 0); inr (VInt 1); inr (VInt 2); inr (VInt 3); inr (VInt 4)]
  ∧ calls (pulls 5 (__iter__ 1%nat) w).2
    = [page_request (VInt 3) 0 ∅; page_request (VInt 3) 3 ∅].
Proof. split; reflexivity. Qed.

Lemma exhaust_endless {Remote : Type} (fuel : nat) :
  ∀ (w : world Remote) self me opts size g,
    index_at w self me opts →
    _page_size me = VInt size →
    opts !! "skip" = None →
    opts !! "limit" = None →
    always_rows (_ref me) →
    g = Created self ∨ (∃ skip pending, g = Suspended self skip pending) →
    (exhaust fuel g w).1.1 = None.
Proof.
  induction fuel as [|fuel IH];
    intros w self me opts size g Hat Hsize Hskip Hlimit Hrows Hg; [done|].
  assert (Hfetch : ∀ skip,
    ∃ x rest w',
      next (Suspended self skip []) w
      = (inr x, Suspended self (skip + size) rest, w')
      ∧ index_at w' self me opts).
  { intros skip.
    destruct (Hrows (remote w) (page_request (VInt size) skip opts))
      as (response & b' & x & rest & Hcall & Hpage).
    eexists x, rest, _. split.
    - by apply (next_page _ _ _ me opts size skip response b').
    - done. }
  assert (Hstep : ∃ x g' w',
    next g w = (inr x, g', w') ∧ index_at w' self me opts
    ∧ ∃ skip pending, g' = Suspended self skip pending).
  { destruct Hg as [->|(skip & [|x rest] & ->)].
    - rewrite (next_created _ _ _ _ _ Hat Hskip Hlimit).
      destruct (Hfetch 0) as (x & rest & w' & -> & Hat'). eauto 10.
    - destruct (Hfetch skip) as (x & rest & w' & -> & Hat'). eauto 10.
    - exists x, (Suspended self skip rest), w. eauto 10. }
  destruct Hstep as (x & g' & w' & Hnext & Hat' & Hg').
  cbn [exhaust]. rewrite Hnext.
  pose proof (IH w' self me opts size g' Hat' Hsize Hskip Hlimit Hrows
                (or_intror Hg')) as Hrest.
  destruct (exhaust fuel g' w') as [[r g''] w'']. simpl in *. by rewrite Hrest.
Qed.

(** X20.  Only a page without rows ends an iteration: over a callable that
    answers every request with a page that has a row, no number of steps
    brings the iteration to its end. *)
Theorem iteration_ends_only_on_a_page_without_rows {Remote : Type}
    (w : world Remote) (self : loc) (me : Index Remote) (opts : dict)
    (size : Z) (fuel : nat) :
  index_at w self me opts →
  _page_size me = VInt size →
  opts !! "skip" = None →
  opts !! "limit" = None →
  always_rows (_ref me) →
  (exhaust fuel (__iter__ self) w).1.1 = None.
Proof.
  intros Hat Hsize Hskip Hlimit Hrows.
  apply (exhaust_endless fuel w self me opts size); try done. by left.
Qed.

Lemma iteration_ends_only_on_a_page_without_rows_witness :
  let w := (__init__ sample_endless ∅ sample_world).2 in
  always_rows sample_endless
  ∧ (exhaust 1000 (__iter__ 1%nat) w).1.1 = None.
Proof.
  intros w.
  assert (Hrows : always_rows sample_endless).
  { intros [] kwargs. by exists {["rows" := VList [VInt 7]]}, tt, (VInt 7), []. }
  split; [exact Hrows|].
  apply (iteration_ends_only_on_a_page_without_rows w 1%nat
           {| options := 0%nat; _ref := sample_endless; _page_size := VInt 100;
              _valid_args := (map_to_list ARG_TYPES).*1 |} ∅ 100 1000).
  - split; reflexivity.
  - reflexivity.
  - reflexivity.
  - reflexivity.
  - exact Hrows.
Defined.

(** X21.  Every call of [__iter__] starts a new iteration from the first
    page: when the callable answers by request, an iteration started after
    other generators over the Index were advanced, however far, sees what an
    iteration started before them sees. *)
Theorem iteration_restarts_from_the_first_page {Remote : Type}
    (w : world Remote) (self : loc) (me : Index Remote) (opts : dict)
    (g : frame) (n m : nat) :
  index_at w self me opts →
  answers_by_request (_ref me) →
  over self g →
  (pulls m (__iter__ self) (pulls n g w).2).1 = (pulls m (__iter__ self) w).1.
Proof.
  intros Hat Hanswers Hg.
  pose proof (pulls_heap _ n g w) as Hheap.
  apply (pulls_by_request _ m _ _ self me opts).
  - by apply (index_at_same_heap _ w).
  - done.
  - done.
  - by left.
Qed.

Lemma iteration_restarts_from_the_first_page_witness :
  let w := (__init__ (sample_view 4) {["page_size" := VInt 3]} sample_world).2 in
  answers_by_request (sample_view 4)
  ∧ (pulls 6 (__iter__ 1%nat) (pulls 5 (__iter__ 1%nat) w).2).1
    = (pulls 6 (__iter__ 1%nat) w).1.
Proof.
  intros w.
  assert (Hanswers : answers_by_request (sample_view 4)) by (by intros [] [] ?).
  split; [exact Hanswers|].
  apply (iteration_restarts_from_the_first_page w 1%nat
           {| options := 0%nat; _ref := sample_view 4; _page_size := VInt 3;
              _valid_args := (map_to_list ARG_TYPES).*1 |} ∅).
  - split; reflexivity.
  - exact Hanswers.
  - by left.
Defined.

(** ** Construction *)


Example two_indexes_keep_their_options :
  let w1 := (__init__ (sample_view 3) {["include_docs" := VBool true]}
               sample_world).2 in
  let w2 := (__init__ (sample_view 3) {["descending" := VBool true]} w1).2 in
  new_calls w2 (__getitem__ 1%nat (VStr "k") w2).2
  = [ {["key" := VStr "k"; "include_docs" := VBool true]} ]
  ∧ new_calls w2 (__getitem__ 3%nat (VStr "k") w2).2
    = [ {["key" := VStr "k"; "descending" := VBool true]} ].
Proof. split; reflexivity. Qed.

(** ** The session helpers *)

(** X23.  In [with cloudant(user, passwd, **kwargs) as c] (and the same
    with [couchdb]) the client is built and connected before the body runs
    on it, in the world the connection left; when the body returns, the
    client is disconnected in the world the body left, and the value of the
    body is the value of the whole unless the disconnection raises. *)
Theorem session_connects_runs_disconnects {World A : Type}
    (construct : pyval → pyval → dict → World → (exn + Client World) * World)
    (g : generator World) (user passwd : pyval) (kwargs : dict)
    (body : Client World → World → (exn + A) * World)
    (c : Client World) (r : A) (w w1 w2 w3 : World) :
  g = cloudant construct user passwd kwargs
  ∨ g = couchdb construct user passwd kwargs →
  construct user passwd kwargs w = (inr c, w1) →
  connect c w1 = (inr tt, w2) →
  body c w2 = (inr r, w3) →
  with_ g body w
  = match disconnect c w3 with
    | (inl e, w4) => (inl e, w4)
    | (inr _, w4) => (inr r, w4)
    end.
Proof.
  intros Hg Hnew Hconnect Hbody.
  assert (Hsession : g = session construct user passwd kwargs)
    by (by destruct Hg as [-> | ->]).
  rewrite Hsession. unfold with_, session. simpl.
  by rewrite Hnew, Hconnect, Hbody.
Qed.

Lemma session_connects_runs_disconnects_witness :
  with_ (cloudant sample_class (VStr "user") (VStr "secret") ∅)
    (λ c log, (inr (VInt 42), log ++ ["body"])) []
  = match disconnect sample_client ["construct"; "connect"; "body"] with
    | (inl e, w4) => (inl e, w4)
    | (inr _, w4) => (inr (VInt 42), w4)
    end.
Proof.
  apply (session_connects_runs_disconnects sample_class
           (cloudant sample_class (VStr "user") (VStr "secret") ∅)
           (VStr "user") (VStr "secret") ∅
           (λ c log, (inr (VInt 42), log ++ ["body"]))
           sample_client (VInt 42)
           [] ["construct"] ["construct"; "connect"]
           ["construct"; "connect"; "body"]).
  - by left.
  - reflexivity.
  - reflexivity.
  - reflexivity.
Defined.

(** X24.  The helpers have no [try] around their [yield]: when the body
    raises, its exception goes on and the client is not disconnected, the
    world stays as the body left it; and when building or connecting the
    client raises, the body does not run. *)
Theorem session_is_not_closed_when_the_body_raises {World A : Type}
    (construct : pyval → pyval → dict → World → (exn + Client World) * World)
    (g : generator World) (user passwd : pyval) (kwargs : dict)
    (body : Client World → World → (exn + A) * World) (w : World) :
  g = cloudant construct user passwd kwargs
  ∨ g = couchdb construct user passwd kwargs →
  (∀ e w1, construct user passwd kwargs w = (inl e, w1) →
           with_ g body w = (inl e, w1))
  ∧ (∀ c w1 e w2,
       construct user passwd kwargs w = (inr c, w1) →
       connect c w1 = (inl e, w2) →
       with_ g body w = (inl e, w2))
  ∧ (∀ c w1 u w2 e w3,
       construct user passwd kwargs w = (inr c, w1) →
       connect c w1 = (inr u, w2) →
       body c w2 = (inl e, w3) →
       with_ g body w = (inl e, w3)).
Proof.
  intros Hg.
  assert (Hsession : g = session construct user passwd kwargs)
    by (by destruct Hg as [-> | ->]).
  rewrite Hsession. unfold with_, session. simpl. split; [|split].
  - by intros e w1 ->.
  - by intros c w1 e w2 -> ->.
  - by intros c w1 u w2 e w3 -> -> ->.
Qed.

Lemma session_is_not_closed_when_the_body_raises_witness :
  with_ (couchdb sample_class (VStr "user") (VStr "secret") ∅)
    (λ c log, (inl (Builtin (Failure 1)) : exn + pyval, log ++ ["body"])) []
  = (inl (Builtin (Failure 1)), ["construct"; "connect"; "body"]).
Proof.
  destruct (session_is_not_closed_when_the_body_raises sample_class
              (couchdb sample_class (VStr "user") (VStr "secret") ∅)
              (VStr "user") (VStr "secret") ∅
              (λ c log, (inl (Builtin (Failure 1)) : exn + pyval,
                         log ++ ["body"])) [])
    as (_ & _ & Hbody).
  - by right.
  - apply (Hbody sample_client ["construct"] tt ["construct"; "connect"]);
      reflexivity.
Defined.

(** ** More on subscripts and on the translator *)

(** X25.  A key that is no string, no list and no slice (an integer, a
    boolean, a tuple, [None], any other object) is refused with the argument
    error that names it, and so is a slice with a tuple as a bound, although
    the catalog accepts a tuple for [startkey] and [endkey]; the callable
    does not run. *)
Theorem other_keys_are_refused {Remote : Type} (w : world Remote) (self : loc)
    (key : pyval) :
  isinstance key [Py.basestring; Py.list; Py.slice] = false
  ∨ (∃ items b step,
       key = VSlice (VTuple items) b step ∨ key = VSlice b (VTuple items) step) →
  (∀ items, isinstance (VTuple items) [Py.basestring; Py.Sequence] = true)
  ∧ __getitem__ self key w
    = (inl (CloudantArgumentError (Failed_to_interpret_the_argument key)), w).
Proof.
  intros Hkey. split; [done|]. rewrite getitem_selected.
  destruct Hkey as [Hkey|(items & b & step & [-> | ->])].
  - destruct key; try discriminate Hkey; reflexivity.
  - reflexivity.
  - destruct b; reflexivity.
Qed.

Lemma other_keys_are_refused_witness :
  let w := (__init__ (sample_view 3) ∅ sample_world).2 in
  (∀ items, isinstance (VTuple items) [Py.basestring; Py.Sequence] = true)
  ∧ __getitem__ 1%nat VNone w
    = (inl (CloudantArgumentError (Failed_to_interpret_the_argument VNone)), w).
Proof.
  intros w. apply (other_keys_are_refused w 1%nat VNone). by left.
Defined.

(** X26.  Whenever a translation succeeds, its result has exactly the names
    of the mapping it was given: nothing is dropped and nothing is added. *)
Theorem successful_translation_keeps_the_names
    (json_dumps : pyval → builtin_exn + string) (options result : dict) :
  python_to_couch json_dumps options = inr result →
  dom result = dom options
  ∧ size result = size options
  ∧ (∀ k, is_Some (result !! k) ↔ is_Some (options !! k)).
Proof.
  intros Hok. pose proof (python_to_couch_dom _ _ _ Hok) as Hdom.
  split; [done|]. split; [by rewrite <-!size_dom, Hdom|].
  intros k. by rewrite <-!elem_of_dom, Hdom.
Qed.

Lemma successful_translation_keeps_the_names_witness :
  let options : dict := {["limit" := VNone; "descending" := VBool true]} in
  let result : dict := {["limit" := VNone; "descending" := VStr "true"]} in
  dom result = dom options
  ∧ size result = size options
  ∧ (∀ k, is_Some (result !! k) ↔ is_Some (options !! k)).
Proof.
  intros options result.
  apply (successful_translation_keeps_the_names sample_dumps options result).
  reflexivity.
Defined.

(** X27.  The entries of a mapping are checked and converted one by one,
    independently: a mapping translates exactly when each of its entries,
    taken alone, translates, and its result then holds for each name what
    the entry alone gives. *)
Theorem translation_goes_entry_by_entry
    (json_dumps : pyval → builtin_exn + string) (options : dict) :
  (succeeds (python_to_couch json_dumps options)
   ↔ ∀ k v, options !! k = Some v →
            succeeds (python_to_couch json_dumps {[k := v]}))
  ∧ (∀ result k v,
       python_to_couch json_dumps options = inr result →
       options !! k = Some v →
       ∃ w, python_to_couch json_dumps {[k := v]} = inr {[k := w]}
            ∧ result !! k = Some w).
Proof.
  assert (Hone : ∀ k v,
    python_to_couch json_dumps {[k := v]}
    = match translate_value json_dumps k v with
      | inl e => inl e
      | inr w => inr {[k := w]}
      end).
  { intros k v. unfold python_to_couch. rewrite map_to_list_singleton. simpl.
    destruct (translate_value json_dumps k v); [done|].
    by rewrite insert_empty. }
  split.
  - split.
    + intros Hok k v Hk. rewrite Hone.
      destruct (python_to_couch_succeeds_inv _ _ _ _ Hok Hk) as [w ->].
      by eexists.
    + intros Hall. apply python_to_couch_succeeds. intros k v Hk.
      specialize (Hall k v Hk). rewrite Hone in Hall.
      destruct (translate_value json_dumps k v) as [e|w]; [by destruct Hall|].
      by exists w.
  - intros result k v [Hin _]%python_to_couch_lookup Hk.
    destruct (Hin _ _ Hk) as (w & Hw & Hres). exists w.
    by rewrite Hone, Hw.
Qed.
